(** * Position-Observer: a shallow embedding of the two-tier position watcher

    The development follows the three versions of the [PositionObserver]
    class that the repository keeps side by side:
    - [Version2]: [src/version-2/position-observer.ts], the coarse watcher,
      the fine watcher and the two frame loops;
    - [TwoIoDifferingIr]: [src/two-io-differing-ir/position-observer.ts],
      two intersection observers and no frame loop;
    - [Documented]: the documented revision with one frame loop and the
      clearing helpers.

    JavaScript numbers are idealised as exact rationals ([Q]).  Host
    objects (the intersection observers, the animation frame queue, the
    layout of the page) are kept in an explicit [World] next to the fields
    of the instance; the methods read and update it through a small
    monad. *)

From Stdlib Require Import QArith Qminmax Qround Qabs Lqa ZArith Lia List Bool.
From stdpp Require Import base list.
Import ListNotations.

Open Scope Q_scope.

(** ** Numbers *)

(** [a < b] on JavaScript numbers, as a boolean. *)
Definition Qltb (a b : Q) : bool :=
  match a ?= b with Lt => true | _ => false end.

(** [a !== b] on JavaScript numbers. *)
Definition Qneqb (a b : Q) : bool := negb (Qeq_bool a b).

(** [Math.ceil(ms / 16)], the number of frames to wait. *)
Definition framesToWait (ms : Q) : Z := Qceiling (ms / 16).

(** ** Host data *)

(** A DOM element is an opaque handle. *)
Definition Element := nat.

(** Modelled from the spec: the host's [DOMRect] type, which the repository
    uses but does not declare.  A bounding rectangle is the tuple
    (left, top, width, height); [right] and [bottom] are derived. *)
Module DOMRect.
Record t := mk { left : Q; top : Q; width : Q; height : Q }.
Definition right (r : t) : Q := left r + width r.
Definition bottom (r : t) : Q := top r + height r.
End DOMRect.

(** The object literal returned by [constructBoxWindow]. *)
Module BoxWindow.
Record t := mk { left : Q; top : Q; right : Q; bottom : Q }.
(** A [DOMRect] read through its four edges. *)
Definition ofRect (r : DOMRect.t) : t :=
  mk (DOMRect.left r) (DOMRect.top r) (DOMRect.right r) (DOMRect.bottom r).
End BoxWindow.

(** The four numbers of a [rootMargin]; the source renders them as the
    string "Tpx Rpx Bpx Lpx". *)
Module Margins.
Record t := mk { top : Q; right : Q; bottom : Q; left : Q }.
(** "0px 0px 0px 0px" *)
Definition zero : t := mk 0 0 0 0.
End Margins.

(** The ambient [visualViewport] read by [getMargins] when there are no
    root bounds. *)
Module VisualViewport.
Record t := mk { offsetTop : Q; offsetLeft : Q; width : Q; height : Q }.
End VisualViewport.

Module Entry.
(** [IntersectionObserverEntry] *)
Record t := mk {
  target : Element;
  boundingClientRect : DOMRect.t;
  intersectionRect : DOMRect.t;
  rootBounds : option DOMRect.t;
  intersectionRatio : Q
}.
End Entry.

(** ** Geometry utilities (shared by the variants) *)

(** [constructBoxWindow(targetBounds, rootBounds)] *)
Definition constructBoxWindow (targetBounds rootBounds : DOMRect.t) : BoxWindow.t :=
  let constrainedLeft :=
    Qmin (Qmax (DOMRect.left rootBounds) (DOMRect.left targetBounds))
         (DOMRect.right rootBounds - DOMRect.width targetBounds) in
  let constrainedTop :=
    Qmin (Qmax (DOMRect.top rootBounds) (DOMRect.top targetBounds))
         (DOMRect.bottom rootBounds - DOMRect.height targetBounds) in
  let constrainedRight := constrainedLeft + DOMRect.width targetBounds in
  let constrainedBottom := constrainedTop + DOMRect.height targetBounds in
  BoxWindow.mk constrainedLeft constrainedTop constrainedRight constrainedBottom.

(** The body of [getMargins] once [viewportBounds] is chosen. *)
Definition marginsWithin (windowDimensions viewportBounds : BoxWindow.t) : Margins.t :=
  let constrainedTopMarginOfWindow :=
    Qmin (- (BoxWindow.top windowDimensions - 1 - BoxWindow.top viewportBounds)) 0 in
  let constrainedRightMarginOfWindow :=
    Qmin (- (BoxWindow.right viewportBounds - (BoxWindow.right windowDimensions + 1))) 0 in
  let constrainedBottomMarginOfWindow :=
    Qmin (- (BoxWindow.bottom viewportBounds - (BoxWindow.bottom windowDimensions + 1))) 0 in
  let constrainedLeftMarginOfWindow :=
    Qmin (- (BoxWindow.left windowDimensions - 1 - BoxWindow.left viewportBounds)) 0 in
  Margins.mk constrainedTopMarginOfWindow constrainedRightMarginOfWindow
             constrainedBottomMarginOfWindow constrainedLeftMarginOfWindow.

(** The outer rectangle [getMargins] measures against: the root bounds,
    or the visual viewport when there are none. *)
Definition viewportBoundsOf (visualViewport : VisualViewport.t)
    (rootBounds : option DOMRect.t) : BoxWindow.t :=
  match rootBounds with
  | None =>
      BoxWindow.mk
        (VisualViewport.offsetLeft visualViewport)
        (VisualViewport.offsetTop visualViewport)
        (VisualViewport.width visualViewport + VisualViewport.offsetLeft visualViewport)
        (VisualViewport.height visualViewport + VisualViewport.offsetTop visualViewport)
  | Some rb => BoxWindow.ofRect rb
  end.

(** [getMargins(windowDimensions, rootBounds)] of version-2. *)
Definition getMargins (visualViewport : VisualViewport.t)
    (windowDimensions : BoxWindow.t) (rootBounds : option DOMRect.t) : Margins.t :=
  marginsWithin windowDimensions (viewportBoundsOf visualViewport rootBounds).

(** The threshold table of the constructor: [ind / thresholdFraction] for
    [ind = 0 .. thresholdFraction]. *)
Definition thresholds (thresholdFraction : nat) : list Q :=
  map (fun ind => inject_Z (Z.of_nat ind) / inject_Z (Z.of_nat thresholdFraction))
      (seq 0 (thresholdFraction + 1)).

(** ** A small monad for the methods

    A method runs in a world [W] (the fields of the instance and the host
    objects).  It either returns, or throws (a [TypeError] from reading a
    property of [undefined] or [null]); in both cases the world reached so
    far stays. *)

Inductive Outcome (W A : Type) :=
| Returned (a : A) (w : W)
| Thrown (w : W).
Arguments Returned {W A} a w.
Arguments Thrown {W A} w.

Definition Js (W A : Type) := W -> Outcome W A.

Definition ret {W A} (a : A) : Js W A := fun w => Returned a w.

Definition bind {W A B} (m : Js W A) (k : A -> Js W B) : Js W B :=
  fun w => match m w with
           | Returned a w' => k a w'
           | Thrown w' => Thrown w'
           end.

Definition throw {W A} : Js W A := fun w => Thrown w.
Definition gets {W A} (f : W -> A) : Js W A := fun w => Returned (f w) w.
Definition modify {W} (f : W -> W) : Js W unit := fun w => Returned tt (f w).
Definition when {W} (b : bool) (m : Js W unit) : Js W unit :=
  if b then m else ret tt.

Declare Scope js_scope.
Delimit Scope js_scope with js.
Notation "x <- m ;; k" := (bind m (fun x => k))
  (at level 100, m at next level, right associativity) : js_scope.
Notation "m ;; k" := (bind m (fun _ => k))
  (at level 100, right associativity) : js_scope.
Open Scope js_scope.

(** The world a computation ends in, returned or thrown. *)
Definition worldOf {W A} (o : Outcome W A) : W :=
  match o with Returned _ w => w | Thrown w => w end.

Definition exec {W A} (m : Js W A) (w : W) : W := worldOf (m w).

Definition throws {W A} (m : Js W A) (w : W) : bool :=
  match m w with Returned _ _ => false | Thrown _ => true end.

(** [e[0]] followed by a property read: throws when the batch is empty. *)
Definition firstEntry {W} (e : list Entry.t) : Js W Entry.t :=
  match e with
  | entry :: _ => ret entry
  | [] => throw
  end.

(** [rootBounds as DOMRect] followed by a property read: throws on [null]. *)
Definition asDOMRect {W} (r : option DOMRect.t) : Js W DOMRect.t :=
  match r with
  | Some rect => ret rect
  | None => throw
  end.

(** ** version-2: coarse watcher, fine watcher and the two frame loops *)

Module Version2.

(** The two functions an [IntersectionObserver] is created with. *)
Inductive Handler := ViewportWindowDetectionCallback | FinerWindowCallback.

Module IntersectionObserver.
(** A host observer: its callback, its options and the targets it
    currently observes. *)
Record t := mk {
  callback : Handler;
  threshold : list Q;
  rootMargin : Margins.t;
  targets : list Element
}.
End IntersectionObserver.

(** What a [requestAnimationFrame] call was given: the two bound methods,
    or the arrow function of [finerWindowCallback], which captures the
    entry. *)
Inductive FrameRequest :=
| RepeatedCheck
| StopConfirmationCheck
| FinerWindowFrame (entry : Entry.t).

Module PositionInfo.
Record t := mk { top : Q; left : Q; width : Q; height : Q }.
End PositionInfo.

Module PositionData.
(** The argument of the reporting callback. *)
Record t := mk {
  x : Q;
  y : Q;
  target : Element;
  outOfViewport : bool;
  rootBounds : option DOMRect.t
}.
End PositionData.

(** The fields of the [PositionObserver] instance, the host objects it
    talks to, and the log of the calls made to [positionObserverCallback]
    (oldest first). *)
Record World := {
  intersectionObserver : option nat;
  thresholdList : list Q;
  positionRAF : option nat;
  previousPositionInfo : option PositionInfo.t;
  target : option Element;
  timeToWaitTillStopConfirmed : Z;
  waitTime : Q;
  stopWaitTime : Q;
  stopped : bool;
  observers : list IntersectionObserver.t;
  frames : list (nat * FrameRequest);
  nextFrame : nat;
  layout : Element -> DOMRect.t;
  visualViewport : VisualViewport.t;
  reported : list PositionData.t
}.

Definition set_intersectionObserver (v : option nat) (w : World) : World :=
  Build_World v (thresholdList w) (positionRAF w) (previousPositionInfo w)
    (target w) (timeToWaitTillStopConfirmed w) (waitTime w)
    (stopWaitTime w) (stopped w) (observers w) (frames w) (nextFrame w)
    (layout w) (visualViewport w) (reported w).
Definition set_positionRAF (v : option nat) (w : World) : World :=
  Build_World (intersectionObserver w) (thresholdList w) v
    (previousPositionInfo w) (target w) (timeToWaitTillStopConfirmed w)
    (waitTime w) (stopWaitTime w) (stopped w) (observers w) (frames w)
    (nextFrame w) (layout w) (visualViewport w) (reported w).
Definition set_previousPositionInfo (v : option PositionInfo.t) (w : World) : World :=
  Build_World (intersectionObserver w) (thresholdList w) (positionRAF w) v
    (target w) (timeToWaitTillStopConfirmed w) (waitTime w)
    (stopWaitTime w) (stopped w) (observers w) (frames w) (nextFrame w)
    (layout w) (visualViewport w) (reported w).
Definition set_target (v : option Element) (w : World) : World :=
  Build_World (intersectionObserver w) (thresholdList w) (positionRAF w)
    (previousPositionInfo w) v (timeToWaitTillStopConfirmed w)
    (waitTime w) (stopWaitTime w) (stopped w) (observers w) (frames w)
    (nextFrame w) (layout w) (visualViewport w) (reported w).
Definition set_timeToWaitTillStopConfirmed (v : Z) (w : World) : World :=
  Build_World (intersectionObserver w) (thresholdList w) (positionRAF w)
    (previousPositionInfo w) (target w) v (waitTime w) (stopWaitTime w)
    (stopped w) (observers w) (frames w) (nextFrame w) (layout w)
    (visualViewport w) (reported w).
Definition set_stopped (v : bool) (w : World) : World :=
  Build_World (intersectionObserver w) (thresholdList w) (positionRAF w)
    (previousPositionInfo w) (target w) (timeToWaitTillStopConfirmed w)
    (waitTime w) (stopWaitTime w) v (observers w) (frames w) (nextFrame w)
    (layout w) (visualViewport w) (reported w).
Definition set_observers (v : list IntersectionObserver.t) (w : World) : World :=
  Build_World (intersectionObserver w) (thresholdList w) (positionRAF w)
    (previousPositionInfo w) (target w) (timeToWaitTillStopConfirmed w)
    (waitTime w) (stopWaitTime w) (stopped w) v (frames w) (nextFrame w)
    (layout w) (visualViewport w) (reported w).
Definition set_frames (v : list (nat * FrameRequest)) (w : World) : World :=
  Build_World (intersectionObserver w) (thresholdList w) (positionRAF w)
    (previousPositionInfo w) (target w) (timeToWaitTillStopConfirmed w)
    (waitTime w) (stopWaitTime w) (stopped w) (observers w) v
    (nextFrame w) (layout w) (visualViewport w) (reported w).
Definition set_nextFrame (v : nat) (w : World) : World :=
  Build_World (intersectionObserver w) (thresholdList w) (positionRAF w)
    (previousPositionInfo w) (target w) (timeToWaitTillStopConfirmed w)
    (waitTime w) (stopWaitTime w) (stopped w) (observers w) (frames w) v
    (layout w) (visualViewport w) (reported w).
Definition set_layout (v : Element -> DOMRect.t) (w : World) : World :=
  Build_World (intersectionObserver w) (thresholdList w) (positionRAF w)
    (previousPositionInfo w) (target w) (timeToWaitTillStopConfirmed w)
    (waitTime w) (stopWaitTime w) (stopped w) (observers w) (frames w)
    (nextFrame w) v (visualViewport w) (reported w).
Definition set_reported (v : list PositionData.t) (w : World) : World :=
  Build_World (intersectionObserver w) (thresholdList w) (positionRAF w)
    (previousPositionInfo w) (target w) (timeToWaitTillStopConfirmed w)
    (waitTime w) (stopWaitTime w) (stopped w) (observers w) (frames w)
    (nextFrame w) (layout w) (visualViewport w) v.

(** *** The host *)

(** [new IntersectionObserver(callback, {threshold, rootMargin, root: document})] *)
Definition newIntersectionObserver (cb : Handler) (rootMargin : Margins.t) : Js World nat :=
  th <- gets thresholdList ;;
  obs <- gets observers ;;
  modify (set_observers (obs ++ [IntersectionObserver.mk cb th rootMargin []])) ;;
  ret (length obs).

Definition setTargets (f : list Element -> list Element)
    (o : IntersectionObserver.t) : IntersectionObserver.t :=
  IntersectionObserver.mk (IntersectionObserver.callback o)
    (IntersectionObserver.threshold o) (IntersectionObserver.rootMargin o)
    (f (IntersectionObserver.targets o)).

(** [io.observe(t)] *)
Definition io_observe (io : nat) (t : Element) : Js World unit :=
  obs <- gets observers ;;
  modify (set_observers
    (alter (setTargets (fun ts => if existsb (Nat.eqb t) ts then ts else ts ++ [t])) io obs)).

(** [io.unobserve(t)] *)
Definition io_unobserve (io : nat) (t : Element) : Js World unit :=
  obs <- gets observers ;;
  modify (set_observers
    (alter (setTargets (List.filter (fun t' => negb (Nat.eqb t t')))) io obs)).

(** [io.disconnect()] *)
Definition io_disconnect (io : nat) : Js World unit :=
  obs <- gets observers ;;
  modify (set_observers (alter (setTargets (fun _ => [])) io obs)).

(** [this.intersectionObserver?.m(...)] *)
Definition onIntersectionObserver (m : nat -> Js World unit) : Js World unit :=
  cur <- gets intersectionObserver ;;
  match cur with
  | Some io => m io
  | None => ret tt
  end.

(** [requestAnimationFrame(f)]: the handle is a fresh non-zero number. *)
Definition requestAnimationFrame (f : FrameRequest) : Js World nat :=
  h <- gets nextFrame ;;
  fs <- gets frames ;;
  modify (set_frames (fs ++ [(h, f)])) ;;
  modify (set_nextFrame (S h)) ;;
  ret h.

(** [cancelAnimationFrame(h)] *)
Definition cancelAnimationFrame (h : nat) : Js World unit :=
  fs <- gets frames ;;
  modify (set_frames (List.filter (fun hf => negb (Nat.eqb h (fst hf))) fs)).

(** [if (this.positionRAF) cancelAnimationFrame(this.positionRAF)]:
    [undefined] and [0] are falsy. *)
Definition cancelPositionRAF : Js World unit :=
  raf <- gets positionRAF ;;
  match raf with
  | Some h => when (negb (Nat.eqb h 0)) (cancelAnimationFrame h)
  | None => ret tt
  end.

(** [t.getBoundingClientRect()] *)
Definition getBoundingClientRect (t : Element) : Js World DOMRect.t :=
  gets (fun w => layout w t).

(** [this.positionObserverCallback(data)] *)
Definition positionObserverCallback (data : PositionData.t) : Js World unit :=
  log <- gets reported ;;
  modify (set_reported (log ++ [data])).

(** *** The class *)

(** [new PositionObserver(callback, thresholdFraction)] in a page with
    the given layout; no observer and no frame request exists yet. *)
Definition construct (thresholdFraction : nat) (page : Element -> DOMRect.t)
    (vv : VisualViewport.t) : World :=
  {| intersectionObserver := None;
     thresholdList := thresholds thresholdFraction;
     positionRAF := None;
     previousPositionInfo := None;
     target := None;
     timeToWaitTillStopConfirmed := 0%Z;
     waitTime := 0;
     stopWaitTime := 1000;
     stopped := false;
     observers := [];
     frames := [];
     nextFrame := 1;
     layout := page;
     visualViewport := vv;
     reported := [] |}.

Definition observe (targetElement : Element) : Js World unit :=
  io <- newIntersectionObserver ViewportWindowDetectionCallback Margins.zero ;;
  modify (set_intersectionObserver (Some io)) ;;
  io_observe io targetElement ;;
  modify (set_target (Some targetElement)).

Definition viewportWindowDetectionCallback (e : list Entry.t) : Js World unit :=
  entry <- firstEntry e ;;
  let target := Entry.target entry in
  let targetBounds := Entry.boundingClientRect entry in
  if Qltb 0 (Entry.intersectionRatio entry) then
    onIntersectionObserver (fun io => io_unobserve io target) ;;
    onIntersectionObserver io_disconnect ;;
    rootBounds <- asDOMRect (Entry.rootBounds entry) ;;
    vv <- gets visualViewport ;;
    io <- newIntersectionObserver FinerWindowCallback
            (getMargins vv
               (constructBoxWindow (Entry.intersectionRect entry) rootBounds)
               (Entry.rootBounds entry)) ;;
    modify (set_intersectionObserver (Some io)) ;;
    onIntersectionObserver (fun io => io_observe io target)
  else
    positionObserverCallback
      {| PositionData.x := DOMRect.left targetBounds;
         PositionData.y := DOMRect.top targetBounds;
         PositionData.target := target;
         PositionData.outOfViewport := true;
         PositionData.rootBounds := Entry.rootBounds entry |}.

(** The comparison of [hasPositionChanged], on the cached sample. *)
Definition positionChanged (previous : option PositionInfo.t)
    (currentRect : DOMRect.t) : bool :=
  match previous with
  | None => true
  | Some p =>
      Qneqb (PositionInfo.left p) (DOMRect.left currentRect)
      || Qneqb (PositionInfo.top p) (DOMRect.top currentRect)
      || Qneqb (PositionInfo.width p) (DOMRect.width currentRect)
      || Qneqb (PositionInfo.height p) (DOMRect.height currentRect)
  end.

Definition hasPositionChanged (currentRect : DOMRect.t) : Js World bool :=
  gets (fun w => positionChanged (previousPositionInfo w) currentRect).

Definition sampleOf (currentRect : DOMRect.t) : PositionInfo.t :=
  {| PositionInfo.top := DOMRect.top currentRect;
     PositionInfo.left := DOMRect.left currentRect;
     PositionInfo.width := DOMRect.width currentRect;
     PositionInfo.height := DOMRect.height currentRect |}.

Definition updatePosition (currentRect : DOMRect.t) : Js World unit :=
  modify (set_previousPositionInfo (Some (sampleOf currentRect))).

(** The frame loop that runs while the target moves. *)
Definition repeatedCheck : Js World unit :=
  tgt <- gets target ;;
  match tgt with
  | Some t =>
      targetRect <- getBoundingClientRect t ;;
      changed <- hasPositionChanged targetRect ;;
      if changed then
        updatePosition targetRect ;;
        positionObserverCallback
          {| PositionData.x := DOMRect.left targetRect;
             PositionData.y := DOMRect.top targetRect;
             PositionData.target := t;
             PositionData.outOfViewport := false;
             PositionData.rootBounds := Some targetRect |} ;;
        wt <- gets waitTime ;;
        modify (set_timeToWaitTillStopConfirmed (framesToWait wt)) ;;
        h <- requestAnimationFrame RepeatedCheck ;;
        modify (set_positionRAF (Some h))
      else
        n <- gets timeToWaitTillStopConfirmed ;;
        if negb (Z.eqb n 0) then
          modify (set_timeToWaitTillStopConfirmed (n - 1)%Z) ;;
          h <- requestAnimationFrame RepeatedCheck ;;
          modify (set_positionRAF (Some h))
        else
          cancelPositionRAF ;;
          observe t
  | None => cancelPositionRAF
  end.

(** The frame loop that waits for the target to come to rest. *)
Definition stopConfirmationCheck : Js World unit :=
  tgt <- gets target ;;
  match tgt with
  | Some t =>
      targetRect <- getBoundingClientRect t ;;
      changed <- hasPositionChanged targetRect ;;
      if changed then
        updatePosition targetRect ;;
        positionObserverCallback
          {| PositionData.x := DOMRect.left targetRect;
             PositionData.y := DOMRect.top targetRect;
             PositionData.target := t;
             PositionData.outOfViewport := false;
             PositionData.rootBounds := Some targetRect |} ;;
        swt <- gets stopWaitTime ;;
        modify (set_timeToWaitTillStopConfirmed (framesToWait swt)) ;;
        h <- requestAnimationFrame StopConfirmationCheck ;;
        modify (set_positionRAF (Some h))
      else
        n <- gets timeToWaitTillStopConfirmed ;;
        if negb (Z.eqb n 0) then
          modify (set_timeToWaitTillStopConfirmed (n - 1)%Z) ;;
          h <- requestAnimationFrame StopConfirmationCheck ;;
          modify (set_positionRAF (Some h))
        else
          raf <- gets positionRAF ;;
          match raf with
          | Some h =>
              when (negb (Nat.eqb h 0))
                (modify (set_stopped true) ;; cancelAnimationFrame h)
          | None => ret tt
          end ;;
          observe t
  | None => cancelPositionRAF
  end.

(** The arrow function that [finerWindowCallback] hands to
    [requestAnimationFrame]. *)
Definition finerWindowFrame (entry : Entry.t) : Js World unit :=
  let target := Entry.target entry in
  let targetBounds := Entry.boundingClientRect entry in
  let ratio := Entry.intersectionRatio entry in
  changed <- hasPositionChanged (Entry.boundingClientRect entry) ;;
  when changed
    (modify (set_stopped false) ;;
     updatePosition (Entry.boundingClientRect entry) ;;
     positionObserverCallback
       {| PositionData.x := DOMRect.left targetBounds;
          PositionData.y := DOMRect.top targetBounds;
          PositionData.target := target;
          PositionData.outOfViewport := false;
          PositionData.rootBounds := Entry.rootBounds entry |} ;;
     when (Qltb 0 ratio && Qltb ratio 1)
       (onIntersectionObserver (fun io => io_unobserve io target) ;;
        onIntersectionObserver io_disconnect ;;
        wt <- gets waitTime ;;
        modify (set_timeToWaitTillStopConfirmed (framesToWait wt)) ;;
        modify (set_stopped false) ;;
        h <- requestAnimationFrame RepeatedCheck ;;
        modify (set_positionRAF (Some h)))) ;;
  when (Qeq_bool ratio 0)
    (onIntersectionObserver (fun io => io_unobserve io target) ;;
     onIntersectionObserver io_disconnect ;;
     observe target) ;;
  when (Qeq_bool ratio 1)
    (st <- gets stopped ;;
     when (negb st)
       (swt <- gets stopWaitTime ;;
        modify (set_timeToWaitTillStopConfirmed (framesToWait swt)) ;;
        h <- requestAnimationFrame StopConfirmationCheck ;;
        modify (set_positionRAF (Some h)))).

Definition finerWindowCallback (e : list Entry.t) : Js World unit :=
  entry <- firstEntry e ;;
  _ <- requestAnimationFrame (FinerWindowFrame entry) ;;
  ret tt.

Definition disconnect : Js World unit :=
  onIntersectionObserver io_disconnect.

(** *** The host calling back *)

Definition runHandler (cb : Handler) (e : list Entry.t) : Js World unit :=
  match cb with
  | ViewportWindowDetectionCallback => viewportWindowDetectionCallback e
  | FinerWindowCallback => finerWindowCallback e
  end.

Definition runFrame (f : FrameRequest) : Js World unit :=
  match f with
  | RepeatedCheck => repeatedCheck
  | StopConfirmationCheck => stopConfirmationCheck
  | FinerWindowFrame entry => finerWindowFrame entry
  end.

(** The host delivers the queued entries of observer [io] to its
    callback.  Entries queued before a [disconnect] are still delivered:
    nothing here asks whether [io] still observes anything. *)
Definition notify (io : nat) (e : list Entry.t) : Js World unit :=
  obs <- gets observers ;;
  match obs !! io with
  | Some o => runHandler (IntersectionObserver.callback o) e
  | None => ret tt
  end.

Definition pendingFrame (h : nat) (fs : list (nat * FrameRequest)) : option FrameRequest :=
  snd <$> List.find (fun hf => Nat.eqb h (fst hf)) fs.

(** The host runs the frame request with handle [h], if it is still
    pending, and forgets it. *)
Definition frame (h : nat) : Js World unit :=
  fs <- gets frames ;;
  match pendingFrame h fs with
  | Some f => cancelAnimationFrame h ;; runFrame f
  | None => ret tt
  end.

(** The page moves element [t] to the rectangle [r]. *)
Definition moveTo (t : Element) (r : DOMRect.t) : Js World unit :=
  modify (fun w => set_layout (fun t' => if Nat.eqb t' t then r else layout w t') w).

Inductive Event :=
| Observe (t : Element)
| Disconnect
| Notify (io : nat) (e : list Entry.t)
| Frame (h : nat)
| MoveTo (t : Element) (r : DOMRect.t).

Definition step (ev : Event) : Js World unit :=
  match ev with
  | Observe t => observe t
  | Disconnect => disconnect
  | Notify io e => notify io e
  | Frame h => frame h
  | MoveTo t r => moveTo t r
  end.

(** A run of the page: an exception ends the call it was thrown in, the
    page goes on from the world reached. *)
Fixpoint run (evs : list Event) (w : World) : World :=
  match evs with
  | [] => w
  | ev :: evs' => run evs' (exec (step ev) w)
  end.

(** The observers that observe at least one target. *)
Definition live (w : World) : list nat :=
  List.filter
    (fun io => match observers w !! io with
               | Some o => negb (Nat.eqb (length (IntersectionObserver.targets o)) 0)
               | None => false
               end)
    (seq 0 (length (observers w))).

End Version2.

(** ** two-io-differing-ir: a backup watcher that restarts the coarse watcher *)

Module TwoIoDifferingIr.

(** The three functions an [IntersectionObserver] is created with: the
    arrow function of [observe] and the two bound methods. *)
Inductive Handler :=
| BackupViewportCallback
| ViewportWindowDetectionCallback
| FinerWindowDetectionCallback.

Module IntersectionObserver.
Record t := mk {
  callback : Handler;
  threshold : list Q;
  rootMargin : Margins.t;
  rootIsDocument : bool;
  targets : list Element
}.
End IntersectionObserver.

Module MovementObserved.
(** The [CustomEvent] dispatched on the target, with its [detail]. *)
Record t := mk {
  target : Element;
  rootBounds : option DOMRect.t;
  outOfViewport : bool
}.
End MovementObserved.

Record World := {
  intersectionObserver : option nat;
  thresholdList : list Q;
  target : option Element;
  viewportIR : option Q;
  viewportVisible : option bool;
  backupViewportIntersectionObserver : option nat;
  observers : list IntersectionObserver.t;
  dispatched : list MovementObserved.t
}.

Definition set_intersectionObserver (v : option nat) (w : World) : World :=
  Build_World v (thresholdList w) (target w) (viewportIR w) (viewportVisible w)
    (backupViewportIntersectionObserver w) (observers w) (dispatched w).
Definition set_target (v : option Element) (w : World) : World :=
  Build_World (intersectionObserver w) (thresholdList w) v (viewportIR w)
    (viewportVisible w) (backupViewportIntersectionObserver w) (observers w)
    (dispatched w).
Definition set_viewportIR (v : option Q) (w : World) : World :=
  Build_World (intersectionObserver w) (thresholdList w) (target w) v
    (viewportVisible w) (backupViewportIntersectionObserver w) (observers w)
    (dispatched w).
Definition set_viewportVisible (v : option bool) (w : World) : World :=
  Build_World (intersectionObserver w) (thresholdList w) (target w) (viewportIR w)
    v (backupViewportIntersectionObserver w) (observers w) (dispatched w).
Definition set_backupViewportIntersectionObserver (v : option nat) (w : World) : World :=
  Build_World (intersectionObserver w) (thresholdList w) (target w) (viewportIR w)
    (viewportVisible w) v (observers w) (dispatched w).
Definition set_observers (v : list IntersectionObserver.t) (w : World) : World :=
  Build_World (intersectionObserver w) (thresholdList w) (target w) (viewportIR w)
    (viewportVisible w) (backupViewportIntersectionObserver w) v (dispatched w).
Definition set_dispatched (v : list MovementObserved.t) (w : World) : World :=
  Build_World (intersectionObserver w) (thresholdList w) (target w) (viewportIR w)
    (viewportVisible w) (backupViewportIntersectionObserver w) (observers w) v.

(** *** The host *)

Definition newIntersectionObserver (cb : Handler) (rootMargin : Margins.t)
    (rootIsDocument : bool) : Js World nat :=
  th <- gets thresholdList ;;
  obs <- gets observers ;;
  modify (set_observers
    (obs ++ [IntersectionObserver.mk cb th rootMargin rootIsDocument []])) ;;
  ret (length obs).

Definition setTargets (f : list Element -> list Element)
    (o : IntersectionObserver.t) : IntersectionObserver.t :=
  IntersectionObserver.mk (IntersectionObserver.callback o)
    (IntersectionObserver.threshold o) (IntersectionObserver.rootMargin o)
    (IntersectionObserver.rootIsDocument o)
    (f (IntersectionObserver.targets o)).

Definition io_observe (io : nat) (t : Element) : Js World unit :=
  obs <- gets observers ;;
  modify (set_observers
    (alter (setTargets (fun ts => if existsb (Nat.eqb t) ts then ts else ts ++ [t])) io obs)).

Definition io_unobserve (io : nat) (t : Element) : Js World unit :=
  obs <- gets observers ;;
  modify (set_observers
    (alter (setTargets (List.filter (fun t' => negb (Nat.eqb t t')))) io obs)).

Definition io_disconnect (io : nat) : Js World unit :=
  obs <- gets observers ;;
  modify (set_observers (alter (setTargets (fun _ => [])) io obs)).

(** [this.intersectionObserver?.m(...)] *)
Definition onIntersectionObserver (m : nat -> Js World unit) : Js World unit :=
  cur <- gets intersectionObserver ;;
  match cur with
  | Some io => m io
  | None => ret tt
  end.

(** [this.intersectionObserver.m(...)]: throws when the field is unset. *)
Definition theIntersectionObserver (m : nat -> Js World unit) : Js World unit :=
  cur <- gets intersectionObserver ;;
  match cur with
  | Some io => m io
  | None => throw
  end.

(** *** The class *)

Definition construct (thresholdFraction : nat) : World :=
  {| intersectionObserver := None;
     thresholdList := thresholds thresholdFraction;
     target := None;
     viewportIR := None;
     viewportVisible := None;
     backupViewportIntersectionObserver := None;
     observers := [];
     dispatched := [] |}.

Definition observe (targetElement : Element) : Js World unit :=
  modify (set_target (Some targetElement)) ;;
  io <- newIntersectionObserver BackupViewportCallback Margins.zero false ;;
  modify (set_backupViewportIntersectionObserver (Some io)) ;;
  io_observe io targetElement.

Definition setupIntersectionObserverFromStart (targetElement : Element) : Js World unit :=
  io <- newIntersectionObserver ViewportWindowDetectionCallback Margins.zero true ;;
  modify (set_intersectionObserver (Some io)) ;;
  io_observe io targetElement ;;
  modify (set_target (Some targetElement)).

(** The arrow function given to the backup observer. *)
Definition backupViewportCallback (e : list Entry.t) : Js World unit :=
  entry <- firstEntry e ;;
  onIntersectionObserver (fun io => io_unobserve io (Entry.target entry)) ;;
  onIntersectionObserver io_disconnect ;;
  setupIntersectionObserverFromStart (Entry.target entry).

(** [!this.viewportVisible]: [undefined] is falsy. *)
Definition notVisible (v : option bool) : bool :=
  match v with
  | Some b => negb b
  | None => true
  end.

Definition reportPosition (rootBounds : option DOMRect.t) : Js World unit :=
  tgt <- gets target ;;
  match tgt with
  | Some t =>
      vis <- gets viewportVisible ;;
      evs <- gets dispatched ;;
      modify (set_dispatched
        (evs ++ [MovementObserved.mk t rootBounds (notVisible vis)]))
  | None => ret tt
  end.

(** [getMargins(windowDimensions, rootBounds)] of this variant: the root
    bounds are read without a fallback. *)
Definition getMargins (windowDimensions : BoxWindow.t) (rootBounds : DOMRect.t) : Margins.t :=
  marginsWithin windowDimensions (BoxWindow.ofRect rootBounds).

Definition finerWindowDetectionCallback (e : list Entry.t) : Js World unit :=
  entry <- firstEntry e ;;
  let IR := Entry.intersectionRatio entry in
  reportPosition (Entry.rootBounds entry) ;;
  vir <- gets viewportIR ;;
  let differs := match vir with
                 | Some v => Qneqb v IR
                 | None => true
                 end in
  if differs then
    theIntersectionObserver io_disconnect ;;
    setupIntersectionObserverFromStart (Entry.target entry)
  else
    ret tt.

Definition viewportWindowDetectionCallback (e : list Entry.t) : Js World unit :=
  entry <- firstEntry e ;;
  let IR := Entry.intersectionRatio entry in
  modify (set_viewportVisible (Some (Qltb 0 IR))) ;;
  reportPosition (Entry.rootBounds entry) ;;
  modify (set_viewportIR (Some IR)) ;;
  if Qltb 0 IR then
    rootBounds <- asDOMRect (Entry.rootBounds entry) ;;
    let rootMargin :=
      getMargins (BoxWindow.ofRect (Entry.intersectionRect entry)) rootBounds in
    theIntersectionObserver (fun io => io_unobserve io (Entry.target entry)) ;;
    theIntersectionObserver io_disconnect ;;
    io <- newIntersectionObserver FinerWindowDetectionCallback rootMargin true ;;
    modify (set_intersectionObserver (Some io)) ;;
    io_observe io (Entry.target entry)
  else
    ret tt.

(** *** The host calling back *)

Definition runHandler (cb : Handler) (e : list Entry.t) : Js World unit :=
  match cb with
  | BackupViewportCallback => backupViewportCallback e
  | ViewportWindowDetectionCallback => viewportWindowDetectionCallback e
  | FinerWindowDetectionCallback => finerWindowDetectionCallback e
  end.

Definition notify (io : nat) (e : list Entry.t) : Js World unit :=
  obs <- gets observers ;;
  match obs !! io with
  | Some o => runHandler (IntersectionObserver.callback o) e
  | None => ret tt
  end.

Inductive Event :=
| Observe (t : Element)
| Notify (io : nat) (e : list Entry.t).

Definition step (ev : Event) : Js World unit :=
  match ev with
  | Observe t => observe t
  | Notify io e => notify io e
  end.

Fixpoint run (evs : list Event) (w : World) : World :=
  match evs with
  | [] => w
  | ev :: evs' => run evs' (exec (step ev) w)
  end.

(** The observers that observe at least one target. *)
Definition live (w : World) : list nat :=
  List.filter
    (fun io => match observers w !! io with
               | Some o => negb (Nat.eqb (length (IntersectionObserver.targets o)) 0)
               | None => false
               end)
    (seq 0 (length (observers w))).

End TwoIoDifferingIr.

(** ** The documented revision of the class (one frame loop, clearing
    helpers)

    It runs in the same world as version-2; the [stopped] field is not
    used and [repeatedCheck] is never requested. *)

Module Documented.

Import Version2.

(** [new PositionObserver(callback, thresholdFraction)]: as in version-2,
    with a stop wait of half a second. *)
Definition construct (thresholdFraction : nat) (page : Element -> DOMRect.t)
    (vv : VisualViewport.t) : World :=
  {| intersectionObserver := None;
     thresholdList := thresholds thresholdFraction;
     positionRAF := None;
     previousPositionInfo := None;
     target := None;
     timeToWaitTillStopConfirmed := 0%Z;
     waitTime := 0;
     stopWaitTime := 500;
     stopped := false;
     observers := [];
     frames := [];
     nextFrame := 1;
     layout := page;
     visualViewport := vv;
     reported := [] |}.

Definition clearPositionInfo : Js World unit :=
  modify (set_previousPositionInfo None).

Definition clearRequestAnimationFrame : Js World unit :=
  raf <- gets positionRAF ;;
  match raf with
  | Some h => when (negb (Nat.eqb h 0)) (cancelAnimationFrame h)
  | None => ret tt
  end.

Definition reportPosition (target : Element) (rootBounds : option DOMRect.t)
    (outOfViewport : bool) : Js World unit :=
  targetBounds <- getBoundingClientRect target ;;
  positionObserverCallback
    {| PositionData.x := DOMRect.left targetBounds;
       PositionData.y := DOMRect.top targetBounds;
       PositionData.target := target;
       PositionData.outOfViewport := outOfViewport;
       PositionData.rootBounds := rootBounds |}.

Definition observe (targetElement : Element) : Js World unit :=
  io <- newIntersectionObserver ViewportWindowDetectionCallback Margins.zero ;;
  modify (set_intersectionObserver (Some io)) ;;
  io_observe io targetElement ;;
  modify (set_target (Some targetElement)).

Definition disconnect : Js World unit :=
  onIntersectionObserver io_disconnect ;;
  clearPositionInfo ;;
  clearRequestAnimationFrame.

Definition viewportWindowDetectionCallback (e : list Entry.t) : Js World unit :=
  entry <- firstEntry e ;;
  let target := Entry.target entry in
  clearPositionInfo ;;
  clearRequestAnimationFrame ;;
  if Qeq_bool (Entry.intersectionRatio entry) 1 then
    onIntersectionObserver (fun io => io_unobserve io target) ;;
    onIntersectionObserver io_disconnect ;;
    rootBounds <- asDOMRect (Entry.rootBounds entry) ;;
    vv <- gets visualViewport ;;
    io <- newIntersectionObserver FinerWindowCallback
            (getMargins vv
               (constructBoxWindow (Entry.intersectionRect entry) rootBounds)
               (Entry.rootBounds entry)) ;;
    modify (set_intersectionObserver (Some io)) ;;
    onIntersectionObserver (fun io => io_observe io target)
  else
    reportPosition target (Entry.rootBounds entry)
      (Qeq_bool (Entry.intersectionRatio entry) 0).

Definition stopConfirmationCheck : Js World unit :=
  clearRequestAnimationFrame ;;
  tgt <- gets target ;;
  match tgt with
  | Some t =>
      targetRect <- getBoundingClientRect t ;;
      changed <- hasPositionChanged targetRect ;;
      if changed then
        updatePosition targetRect ;;
        reportPosition t (Some targetRect) false ;;
        swt <- gets stopWaitTime ;;
        modify (set_timeToWaitTillStopConfirmed (framesToWait swt)) ;;
        h <- requestAnimationFrame StopConfirmationCheck ;;
        modify (set_positionRAF (Some h))
      else
        n <- gets timeToWaitTillStopConfirmed ;;
        if negb (Z.eqb n 0) then
          modify (set_timeToWaitTillStopConfirmed (n - 1)%Z) ;;
          h <- requestAnimationFrame StopConfirmationCheck ;;
          modify (set_positionRAF (Some h))
        else
          clearRequestAnimationFrame ;;
          clearPositionInfo ;;
          observe t
  | None =>
      clearRequestAnimationFrame ;;
      clearPositionInfo
  end.

(** The arrow function that [finerWindowCallback] hands to
    [requestAnimationFrame]. *)
Definition finerWindowFrame (entry : Entry.t) : Js World unit :=
  let target := Entry.target entry in
  let ratio := Entry.intersectionRatio entry in
  if Qeq_bool ratio 1 then
    reportPosition target (Entry.rootBounds entry) false
  else if Qle_bool 0 ratio && Qltb ratio 1 then
    reportPosition target (Entry.rootBounds entry) false ;;
    onIntersectionObserver (fun io => io_unobserve io target) ;;
    onIntersectionObserver io_disconnect ;;
    wt <- gets waitTime ;;
    modify (set_timeToWaitTillStopConfirmed (framesToWait wt)) ;;
    h <- requestAnimationFrame StopConfirmationCheck ;;
    modify (set_positionRAF (Some h))
  else
    ret tt.

Definition finerWindowCallback (e : list Entry.t) : Js World unit :=
  clearRequestAnimationFrame ;;
  clearPositionInfo ;;
  entry <- firstEntry e ;;
  _ <- requestAnimationFrame (FinerWindowFrame entry) ;;
  ret tt.

(** *** The host calling back *)

Definition runHandler (cb : Handler) (e : list Entry.t) : Js World unit :=
  match cb with
  | ViewportWindowDetectionCallback => viewportWindowDetectionCallback e
  | FinerWindowCallback => finerWindowCallback e
  end.

Definition runFrame (f : FrameRequest) : Js World unit :=
  match f with
  | RepeatedCheck => ret tt
  | StopConfirmationCheck => stopConfirmationCheck
  | FinerWindowFrame entry => finerWindowFrame entry
  end.

Definition notify (io : nat) (e : list Entry.t) : Js World unit :=
  obs <- gets observers ;;
  match obs !! io with
  | Some o => runHandler (IntersectionObserver.callback o) e
  | None => ret tt
  end.

Definition frame (h : nat) : Js World unit :=
  fs <- gets frames ;;
  match pendingFrame h fs with
  | Some f => cancelAnimationFrame h ;; runFrame f
  | None => ret tt
  end.

Definition step (ev : Event) : Js World unit :=
  match ev with
  | Observe t => observe t
  | Disconnect => disconnect
  | Notify io e => notify io e
  | Frame h => frame h
  | MoveTo t r => moveTo t r
  end.

Fixpoint run (evs : list Event) (w : World) : World :=
  match evs with
  | [] => w
  | ev :: evs' => run evs' (exec (step ev) w)
  end.

End Documented.

(** * Verification *)

Import Version2.

(** ** Definitions used by the statements *)

(** The margin formula as the specification words it, for one side:
    [min(0, -(innerEdge - outerEdge + bias))] with [bias] one unit either
    way. *)
Definition specMargin (innerEdge outerEdge bias : Q) : Q :=
  Qmin 0 (- (innerEdge - outerEdge + bias)).

(** A fitted window well inside a viewport of 1000 by 800. *)
Definition insideWindow : BoxWindow.t := BoxWindow.mk 100 100 120 120.
Definition wideViewport : DOMRect.t := DOMRect.mk 0 0 1000 800.
Definition plainViewport : VisualViewport.t := VisualViewport.mk 0 0 1000 800.

(** Every pending frame request carries a handle that
    [requestAnimationFrame] has already given out. *)
Definition freshFrames (w : World) : Prop :=
  forall h f, In (h, f) (frames w) -> (h < nextFrame w)%nat.

(** The same, as a test that can be run. *)
Definition freshFramesb (w : World) : bool :=
  forallb (fun hf => Nat.ltb (fst hf) (nextFrame w)) (frames w).

(** The coarse watcher that [observe] creates. *)
Definition coarseWatcher (w : World) (t : Element) : IntersectionObserver.t :=
  IntersectionObserver.mk ViewportWindowDetectionCallback (thresholdList w)
    Margins.zero [t].

(** Observer [io] has no target left. *)
Definition unsubscribed (w : World) (io : nat) : Prop :=
  exists o, observers w !! io = Some o /\ IntersectionObserver.targets o = [].

(** The current watcher is the only observer that may still observe a
    target. *)
Definition soleLive (w : World) : Prop :=
  forall i, In i (live w) -> intersectionObserver w = Some i.

(** The same, as a test that can be run. *)
Definition soleLiveb (w : World) : bool :=
  forallb (fun i => match intersectionObserver w with
                    | Some io => Nat.eqb io i
                    | None => false
                    end)
          (live w).

(** *** A page to run the observer on *)

Definition someTarget : Element := 7%nat.
Definition offScreen : DOMRect.t := DOMRect.mk 1200 100 20 20.
Definition atRest : DOMRect.t := DOMRect.mk 100 100 20 20.
Definition moved : DOMRect.t := DOMRect.mk 110 100 20 20.
Definition movedAgain : DOMRect.t := DOMRect.mk 150 100 20 20.
Definition movedFurther : DOMRect.t := DOMRect.mk 170 100 20 20.
Definition nowhere : DOMRect.t := DOMRect.mk 0 0 0 0.

(** The root of the fine watcher: the fitted window around [atRest], one
    pixel wider on each side. *)
Definition fittedRoot : DOMRect.t := DOMRect.mk 99 99 22 22.

(** The coarse watcher finds the target outside the viewport. *)
Definition outsideViewport : Entry.t :=
  Entry.mk someTarget offScreen nowhere (Some wideViewport) 0.

(** The coarse watcher finds the target fully inside the viewport. *)
Definition enteredViewport : Entry.t :=
  Entry.mk someTarget atRest atRest (Some wideViewport) 1.

(** The fine watcher finds the target ten pixels to the right, half out of
    its window. *)
Definition startedMoving : Entry.t :=
  Entry.mk someTarget moved (DOMRect.mk 110 100 10 20) (Some fittedRoot) (1 # 2).


(** A new observer on a page where the target sits at [r]. *)
Definition newPage (r : DOMRect.t) : World :=
  construct 4 (fun _ => r) plainViewport.

(** [observe] was called for a target off screen: the coarse watcher
    (observer 0) is subscribed. *)
Definition coarseWorld : World := run [Observe someTarget] (newPage offScreen).

(** The target was seen in the viewport: the fine watcher (observer 1) is
    subscribed. *)
Definition fineWorld : World :=
  run [Observe someTarget; Notify 0%nat [enteredViewport]] (newPage atRest).

(** The fine watcher of [fineWorld], with the margins of the fitted window
    around [atRest]. *)
Definition fineWatcher : IntersectionObserver.t :=
  IntersectionObserver.mk FinerWindowCallback (thresholds 4)
    (Margins.mk (-99) (-879) (-679) (-99)) [someTarget].

(** The target moved and partially left the fitted window; the frame
    closure of the fine watcher (handle 1) has run and the first
    [repeatedCheck] tick (handle 2) is pending. *)
Definition pollingWorld : World :=
  run [MoveTo someTarget moved; Notify 1%nat [startedMoving]; Frame 1%nat] fineWorld.

(** Both frame loops at once.  The fine watcher saw the target at rest, and
    its frame closure (handle 1) started [stopConfirmationCheck]; then it
    saw the target partly out of its window, and that closure (handle 3)
    started [repeatedCheck].  The target kept moving in between, and the
    frames ran oldest first: the [stopConfirmationCheck] tick (handle 4)
    recorded the last move and re-armed the counter, the [repeatedCheck]
    tick after it (handle 5) found nothing changed. *)
Definition twoLoopsWorld : World :=
  run [Notify 1%nat [enteredViewport]; Frame 1%nat;
       MoveTo someTarget moved; Notify 1%nat [startedMoving];
       MoveTo someTarget movedAgain; Frame 2%nat; Frame 3%nat;
       MoveTo someTarget movedFurther; Frame 4%nat; Frame 5%nat]
      fineWorld.

(** *** The frame loop seen from the host *)

(** The host runs the frame request the instance last asked for. *)
Definition tick (w : World) : World :=
  match positionRAF w with
  | Some h => exec (frame h) w
  | None => w
  end.

Fixpoint ticks (k : nat) (w : World) : World :=
  match k with
  | O => w
  | S k' => ticks k' (tick w)
  end.

(** The motion poller waits for its next tick with [n] frames left on the
    stillness counter, and the target is where the cached sample says. *)
Definition pollingStill (w : World) (t : Element) (n : Z) : Prop :=
  target w = Some t
  /\ positionChanged (previousPositionInfo w) (layout w t) = false
  /\ timeToWaitTillStopConfirmed w = n
  /\ freshFrames w
  /\ exists h, positionRAF w = Some h
               /\ pendingFrame h (frames w) = Some RepeatedCheck.

(** Between [w] and [w'] only the bookkeeping of the frame loop moved on:
    nothing was reported, no observer was touched, the cached sample is the
    same, and whatever else is pending in [w'] was pending in [w]. *)
Definition quietSince (w w' : World) : Prop :=
  reported w' = reported w
  /\ observers w' = observers w
  /\ intersectionObserver w' = intersectionObserver w
  /\ thresholdList w' = thresholdList w
  /\ previousPositionInfo w' = previousPositionInfo w
  /\ waitTime w' = waitTime w
  /\ (forall h f, In (h, f) (frames w') -> positionRAF w' <> Some h ->
        In (h, f) (frames w) /\ positionRAF w <> Some h).

(** [pollingWorld] with a stillness wait of 32 ms instead of the 0 ms the
    class is written with, two frames of it still to go; the target rests
    at the cached sample. *)
Definition patientPollingWorld : World :=
  {| intersectionObserver := intersectionObserver pollingWorld;
     thresholdList := thresholdList pollingWorld;
     positionRAF := positionRAF pollingWorld;
     previousPositionInfo := previousPositionInfo pollingWorld;
     target := target pollingWorld;
     timeToWaitTillStopConfirmed := 2;
     waitTime := 32;
     stopWaitTime := stopWaitTime pollingWorld;
     stopped := stopped pollingWorld;
     observers := observers pollingWorld;
     frames := frames pollingWorld;
     nextFrame := nextFrame pollingWorld;
     layout := layout pollingWorld;
     visualViewport := visualViewport pollingWorld;
     reported := reported pollingWorld |}.

(** *** Invariants of the methods *)

(** Running [m] keeps [P]. *)
Definition preserves {A} (P : World -> Prop) (m : Js World A) : Prop :=
  forall w, P w -> P (worldOf (m w)).

(** *** The same page under the documented revision *)

Definition documentedFineWorld : World :=
  Documented.run [Observe someTarget; Notify 0%nat [enteredViewport]]
    (Documented.construct 4 (fun _ => atRest) plainViewport).

(** *** Further definitions *)

(** The stop-confirmation loop waits for its next tick with [n] frames left
    on the counter, and the target is where the cached sample says. *)
Definition confirmingStill (w : World) (t : Element) (n : Z) : Prop :=
  target w = Some t
  /\ positionChanged (previousPositionInfo w) (layout w t) = false
  /\ timeToWaitTillStopConfirmed w = n
  /\ freshFrames w
  /\ exists h, positionRAF w = Some h
               /\ h <> 0%nat
               /\ pendingFrame h (frames w) = Some StopConfirmationCheck.

(** The fine watcher has seen the target fully inside its window and its
    frame closure has run: the stop-confirmation loop has just been started
    on the resting target. *)
Definition confirmingWorld : World :=
  run [Notify 1%nat [enteredViewport]; Frame 1%nat] fineWorld.

(** A method calls the reporting callback at most [k] times, and leaves the
    calls already logged as they are. *)
Definition reportsAtMost {A} (k : nat) (m : Js World A) : Prop :=
  forall w, exists l,
    reported (worldOf (m w)) = reported w ++ l /\ (length l <= k)%nat.

(** The instance has a target, or the host holds nothing of it yet: no
    observer it created, no frame request it made. *)
Definition armed (w : World) : Prop :=
  target w <> None \/ (observers w = [] /\ frames w = []).

(** A method that runs to its end in every world. *)
Definition neverThrows {W A} (m : Js W A) : Prop :=
  forall w, throws m w = false.

(** *** The two-observer variant on the example page *)

(** [observe] was called and the backup watcher (observer 0) has fired: the
    coarse watcher (observer 1) is current and subscribed. *)
Definition twoIoCoarseWorld : TwoIoDifferingIr.World :=
  TwoIoDifferingIr.run
    [TwoIoDifferingIr.Observe someTarget;
     TwoIoDifferingIr.Notify 0%nat [enteredViewport]]
    (TwoIoDifferingIr.construct 4).

(** The coarse watcher saw the target fully inside the viewport: the fine
    watcher (observer 2) is current and the cached ratio is 1. *)
Definition twoIoFineWorld : TwoIoDifferingIr.World :=
  TwoIoDifferingIr.run [TwoIoDifferingIr.Notify 1%nat [enteredViewport]]
    twoIoCoarseWorld.

(** Every observer the host holds is a backup watcher. *)
Definition allBackup (w : TwoIoDifferingIr.World) : Prop :=
  forall io o,
    TwoIoDifferingIr.observers w !! io = Some o ->
    TwoIoDifferingIr.IntersectionObserver.callback o
    = TwoIoDifferingIr.BackupViewportCallback.

(** The instance refers to a watcher, or no coarse or fine watcher exists
    yet. *)
Definition wired (w : TwoIoDifferingIr.World) : Prop :=
  TwoIoDifferingIr.intersectionObserver w <> None \/ allBackup w.

(** *** The frame loop of the documented revision *)

(** The host runs the frame request the instance last asked for. *)
Definition documentedTick (w : World) : World :=
  match positionRAF w with
  | Some h => exec (Documented.frame h) w
  | None => w
  end.

Fixpoint documentedTicks (k : nat) (w : World) : World :=
  match k with
  | O => w
  | S k' => documentedTicks k' (documentedTick w)
  end.

(** Under the documented revision: the target moved and partly left the
    fitted window, the frame closure of the fine watcher (handle 1) and the
    first tick of the loop (handle 2) have run, and the next tick
    (handle 3) is pending. *)
Definition documentedLoopWorld : World :=
  Documented.run
    [MoveTo someTarget moved; Notify 1%nat [startedMoving]; Frame 1%nat; Frame 2%nat]
    documentedFineWorld.

(** ** Numbers *)

Lemma Qltb_lt a b : Qltb a b = true <-> a < b.
Proof.
  unfold Qltb. rewrite Qlt_alt. destruct (a ?= b); split; congruence.
Qed.

Lemma Qltb_ge a b : Qltb a b = false <-> b <= a.
Proof.
  split; intros H.
  - apply Qnot_lt_le. intros L. apply Qltb_lt in L. congruence.
  - destruct (Qltb a b) eqn:E; [|reflexivity].
    apply Qltb_lt in E. exfalso. exact (Qlt_not_le _ _ E H).
Qed.

Lemma Qneqb_refl a : Qneqb a a = false.
Proof.
  unfold Qneqb. rewrite (proj2 (Qeq_bool_iff a a)); [reflexivity|apply Qeq_refl].
Qed.

(** ** Geometry *)

Lemma Qmin_cases (a b : Q) :
  (a <= b /\ Qmin a b == a) \/ (b <= a /\ Qmin a b == b).
Proof.
  destruct (Q.min_spec a b) as [[H E]|[H E]]; [left|right]; split;
    try exact E; try exact H.
  apply Qlt_le_weak, H.
Qed.

Lemma Qmax_cases (a b : Q) :
  (a <= b /\ Qmax a b == b) \/ (b <= a /\ Qmax a b == a).
Proof.
  destruct (Q.max_spec a b) as [[H E]|[H E]]; [left|right]; split;
    try exact E; try exact H.
  apply Qlt_le_weak, H.
Qed.

(** Case split on every [Qmin] and [Qmax] of the goal, then linear
    arithmetic. *)
Ltac minmax_case f a b cases :=
  let H := fresh "H" in
  let E := fresh "E" in
  let x := fresh "x" in
  destruct (cases a b) as [[H E]|[H E]];
  [ set (x := f a b) in *; clearbody x .. ].

Ltac minmax :=
  repeat match goal with
  | |- context [Qmin ?a ?b] => minmax_case Qmin a b Qmin_cases
  | |- context [Qmax ?a ?b] => minmax_case Qmax a b Qmax_cases
  | _ : context [Qmin ?a ?b] |- _ => minmax_case Qmin a b Qmin_cases
  | _ : context [Qmax ?a ?b] |- _ => minmax_case Qmax a b Qmax_cases
  end; try lra.



(** C5, as stated, fails on the right and bottom sides: the code gives
    [-879] and [-679] for a window whose right and bottom edges are 120 in a
    viewport of 1000 by 800, where [min(0, -(innerEdge - outerEdge +/- 1))] is
    [0] for either sign of the bias. *)
Lemma getMargins_right_bottom_not_inner_minus_outer :
  let m := getMargins plainViewport insideWindow (Some wideViewport) in
  Margins.right m == -879 /\ Margins.bottom m == -679
  /\ ~ Margins.right m == specMargin (BoxWindow.right insideWindow) (DOMRect.right wideViewport) 1
  /\ ~ Margins.right m == specMargin (BoxWindow.right insideWindow) (DOMRect.right wideViewport) (-1)
  /\ ~ Margins.bottom m == specMargin (BoxWindow.bottom insideWindow) (DOMRect.bottom wideViewport) 1
  /\ ~ Margins.bottom m == specMargin (BoxWindow.bottom insideWindow) (DOMRect.bottom wideViewport) (-1).
Proof.
  vm_compute. repeat split; discriminate.
Qed.

(** C5 (amended). [getMargins] measures every margin inwards from the outer
    rectangle, with a bias of one unit: the top and left margins are
    [min(0, -(innerEdge - outerEdge - 1))], the right and bottom margins are
    [min(0, -(outerEdge - innerEdge - 1))]; all four are at most 0. *)
Theorem getMargins_inward_nonpositive (visualViewport : VisualViewport.t)
    (windowDimensions : BoxWindow.t) (rootBounds : option DOMRect.t) :
  let outer := viewportBoundsOf visualViewport rootBounds in
  let m := getMargins visualViewport windowDimensions rootBounds in
  (Margins.top m
     == specMargin (BoxWindow.top windowDimensions) (BoxWindow.top outer) (-1)
   /\ Margins.left m
     == specMargin (BoxWindow.left windowDimensions) (BoxWindow.left outer) (-1)
   /\ Margins.right m
     == specMargin (BoxWindow.right outer) (BoxWindow.right windowDimensions) (-1)
   /\ Margins.bottom m
     == specMargin (BoxWindow.bottom outer) (BoxWindow.bottom windowDimensions) (-1))
  /\ Margins.top m <= 0 /\ Margins.right m <= 0
  /\ Margins.bottom m <= 0 /\ Margins.left m <= 0.
Proof.
  intros outer m. subst m. unfold getMargins, marginsWithin, specMargin. fold outer.
  destruct windowDimensions as [wl wt wr wb], outer as [ol ot or ob]; cbn.
  repeat split; minmax.
Qed.

(** ** The coarse watcher *)

Lemma ratio_zero_tests (q : Q) :
  q == 0 -> Qltb 0 q = false /\ Qeq_bool q 0 = true /\ Qeq_bool q 1 = false.
Proof.
  intros H. repeat split.
  - apply Qltb_ge. rewrite H. apply Qle_refl.
  - apply Qeq_bool_iff, H.
  - destruct (Qeq_bool q 1) eqn:E; [|reflexivity].
    apply Qeq_bool_iff in E. rewrite H in E. discriminate E.
Qed.

Lemma lookup_new_observer {A} (l : list A) (x : A) (f : A -> A) (n m : nat) :
  n = length l -> m = length l ->
  alter f n (l ++ [x]) !! m = Some (f x).
Proof.
  intros -> ->.
  rewrite list_lookup_alter_eq, lookup_app_r, Nat.sub_diag by lia. reflexivity.
Qed.

(** C6. Right after [observe], a notification whose first entry has ratio 0
    makes the coarse watcher call the reporting callback exactly once, with
    [outOfViewport] true and the entry's target bounds as [x] and [y];
    nothing else in the world changes: the same watcher stays current and
    subscribed, no observer is created and no frame is requested. *)
Theorem coarse_zero_ratio_single_report (w : World) (t : Element)
    (entry : Entry.t) (rest : list Entry.t) :
  Entry.intersectionRatio entry == 0 ->
  let w1 := exec (observe t) w in
  let io := length (observers w) in
  let data :=
    {| PositionData.x := DOMRect.left (Entry.boundingClientRect entry);
       PositionData.y := DOMRect.top (Entry.boundingClientRect entry);
       PositionData.target := Entry.target entry;
       PositionData.outOfViewport := true;
       PositionData.rootBounds := Entry.rootBounds entry |} in
  intersectionObserver w1 = Some io
  /\ notify io (entry :: rest) w1
     = Returned tt (set_reported (reported w1 ++ [data]) w1).
Proof.
  intros H w1 io data. destruct (ratio_zero_tests _ H) as (Hlt & _ & _).
  split; [reflexivity|].
  subst w1 io. unfold notify, exec, observe, newIntersectionObserver, io_observe,
    bind, gets, modify, ret.
  cbn. rewrite lookup_new_observer by reflexivity. cbn.
  unfold viewportWindowDetectionCallback, bind. cbn. rewrite Hlt.
  reflexivity.
Qed.

(** ** The fine watcher *)

Arguments pendingFrame : simpl never.
Arguments positionChanged : simpl never.
Arguments framesToWait : simpl never.

Lemma pendingFrame_fresh (fs : list (nat * FrameRequest)) (h : nat) (f : FrameRequest) :
  (forall h' f', In (h', f') fs -> h' <> h) ->
  pendingFrame h (fs ++ [(h, f)]) = Some f.
Proof.
  unfold pendingFrame. induction fs as [|[h' f'] fs IH]; intros Hf; cbn.
  - rewrite Nat.eqb_refl. reflexivity.
  - destruct (Nat.eqb_spec h h') as [->|_].
    + exfalso. apply (Hf h' f'); [left|]; reflexivity.
    + apply IH. intros h'' f'' Hin. apply (Hf h'' f''). right. exact Hin.
Qed.

Lemma cancel_fresh (fs : list (nat * FrameRequest)) (h : nat) (f : FrameRequest) :
  (forall h' f', In (h', f') fs -> h' <> h) ->
  List.filter (fun hf => negb (Nat.eqb h (fst hf))) (fs ++ [(h, f)]) = fs.
Proof.
  induction fs as [|[h' f'] fs IH]; intros Hf; cbn.
  - rewrite Nat.eqb_refl. reflexivity.
  - destruct (Nat.eqb_spec h h') as [->|_]; cbn.
    + exfalso. apply (Hf h' f'); [left|]; reflexivity.
    + f_equal. apply IH. intros h'' f'' Hin. apply (Hf h'' f''). right. exact Hin.
Qed.


Lemma freshFramesb_sound (w : World) : freshFramesb w = true -> freshFrames w.
Proof.
  unfold freshFramesb, freshFrames. rewrite forallb_forall.
  intros H h f Hin. specialize (H _ Hin). cbn in H.
  apply Nat.ltb_lt, H.
Qed.

Lemma alter_alter_lookup {A} (f g : A -> A) (l : list A) (i : nat) (x : A) :
  l !! i = Some x -> alter f i (alter g i l) !! i = Some (f (g x)).
Proof.
  intros H. rewrite !list_lookup_alter_eq, H. reflexivity.
Qed.


(** ** Tearing down the previous watcher *)

Arguments live : simpl never.

Lemma In_live (w : World) (i : nat) :
  In i (live w) <->
  exists o, observers w !! i = Some o /\ IntersectionObserver.targets o <> [].
Proof.
  unfold live. rewrite List.filter_In, in_seq. split.
  - intros [_ H]. destruct (observers w !! i) as [o|]; [|discriminate].
    exists o. split; [reflexivity|].
    destruct (IntersectionObserver.targets o); [discriminate|congruence].
  - intros (o & Ho & Ht). split.
    + apply lookup_lt_Some in Ho. lia.
    + rewrite Ho. destruct (IntersectionObserver.targets o); [congruence|reflexivity].
Qed.

Lemma soleLiveb_sound (w : World) : soleLiveb w = true -> soleLive w.
Proof.
  unfold soleLiveb, soleLive. rewrite forallb_forall.
  intros H i Hin. specialize (H _ Hin).
  destruct (intersectionObserver w) as [io|]; [|discriminate].
  apply Nat.eqb_eq in H. congruence.
Qed.

Lemma ratio_positive_test (q : Q) : 0 < q -> Qltb 0 q = true.
Proof. apply Qltb_lt. Qed.

Lemma ratio_partial_tests (q : Q) :
  0 < q -> q < 1 ->
  Qltb 0 q = true /\ Qltb q 1 = true /\ Qeq_bool q 0 = false /\ Qeq_bool q 1 = false.
Proof.
  intros H0 H1. repeat split; try (apply Qltb_lt; assumption).
  - destruct (Qeq_bool q 0) eqn:E; [|reflexivity].
    apply Qeq_bool_iff in E. rewrite E in H0. exfalso. exact (Qlt_irrefl _ H0).
  - destruct (Qeq_bool q 1) eqn:E; [|reflexivity].
    apply Qeq_bool_iff in E. rewrite E in H1. exfalso. exact (Qlt_irrefl _ H1).
Qed.


Lemma cleared_lookup (obs : list IntersectionObserver.t) (io i : nat)
    (g : list Element -> list Element) (o : IntersectionObserver.t) :
  alter (setTargets (fun _ => [])) io (alter (setTargets g) io obs) !! i = Some o ->
  (i = io /\ IntersectionObserver.targets o = []) \/ (i <> io /\ obs !! i = Some o).
Proof.
  intros H. destruct (Nat.eq_dec i io) as [->|Hne].
  - left. split; [reflexivity|].
    rewrite list_lookup_alter_eq in H.
    destruct (alter (setTargets g) io obs !! io); [|discriminate].
    injection H as <-. reflexivity.
  - right. split; [exact Hne|].
    rewrite !list_lookup_alter_ne in H by congruence. exact H.
Qed.


Lemma alter_new_observer {A} (l : list A) (x : A) (f : A -> A) :
  alter f (length l) (l ++ [x]) = l ++ [f x].
Proof.
  induction l as [|a l IH]; cbn; [reflexivity|]. f_equal. exact IH.
Qed.

Ltac js_unfold :=
  unfold exec, viewportWindowDetectionCallback, finerWindowFrame, repeatedCheck,
    stopConfirmationCheck, finerWindowCallback, disconnect, observe,
    hasPositionChanged, updatePosition, positionObserverCallback,
    getBoundingClientRect, cancelPositionRAF, cancelAnimationFrame,
    requestAnimationFrame, onIntersectionObserver, io_observe, io_unobserve,
    io_disconnect, newIntersectionObserver, firstEntry, asDOMRect,
    when, bind, gets, modify, ret;
  cbv zeta.

(** Run the methods symbolically, using [rw] to decide the tests. *)
Ltac js_run rw := repeat (progress (js_unfold; cbn; rw)).


(** ** disconnect *)

Lemma alter_idem {A} (f : A -> A) (i : nat) (l : list A) :
  (forall x, f (f x) = f x) -> alter f i (alter f i l) = alter f i l.
Proof.
  intros Hf. revert i. induction l as [|a l IH]; intros [|i]; cbn;
    try reflexivity.
  - rewrite Hf. reflexivity.
  - f_equal. apply IH.
Qed.

(** C1, as stated, fails.  A notification that was already queued for the
    coarse watcher is handled after [disconnect] and reports; and in the
    polling phase [disconnect] leaves the pending tick and the cached sample
    in place, so the next frame reports as well. *)
Lemma reports_after_disconnect :
  (let w := exec disconnect coarseWorld in
   length (reported (run [Notify 0%nat [outsideViewport]] w)) = S (length (reported w)))
  /\ (let p := exec disconnect pollingWorld in
      frames p = [(2%nat, RepeatedCheck)]
      /\ previousPositionInfo p = Some (sampleOf moved)
      /\ length (reported (run [MoveTo someTarget movedAgain; Frame 2%nat] p))
         = S (length (reported p))).
Proof.
  vm_compute. repeat split.
Qed.

(** C1 (amended). [disconnect] disconnects the watcher the instance
    currently refers to, so that it observes no target; it makes no report
    and throws nothing, whatever the state; calling it again changes
    nothing, and without a watcher it changes nothing at all.  When the
    current watcher was the only live one, no observer is live afterwards.
    Nothing records that the instance was disconnected: a notification
    already queued for a coarse watcher is handled as ever when it fires
    afterwards, and at ratio 0 it reports. *)
Theorem disconnect_unsubscribes_silently (w : World) :
  let w1 := exec disconnect w in
  throws disconnect w = false
  /\ reported w1 = reported w
  /\ (forall io, intersectionObserver w = Some io -> ~ In io (live w1))
  /\ (soleLive w -> forall i, ~ In i (live w1))
  /\ exec disconnect w1 = w1
  /\ (intersectionObserver w = None -> w1 = w)
  /\ (forall io o entry rest,
        observers w !! io = Some o ->
        IntersectionObserver.callback o = ViewportWindowDetectionCallback ->
        Entry.intersectionRatio entry == 0 ->
        reported (exec (notify io (entry :: rest)) w1)
        = reported w ++
          [{| PositionData.x := DOMRect.left (Entry.boundingClientRect entry);
              PositionData.y := DOMRect.top (Entry.boundingClientRect entry);
              PositionData.target := Entry.target entry;
              PositionData.outOfViewport := true;
              PositionData.rootBounds := Entry.rootBounds entry |}]).
Proof.
  intros w1. subst w1. unfold throws. js_unfold.
  destruct (intersectionObserver w) as [io|] eqn:Hcur; cbn; rewrite ?Hcur; cbn.
  - assert (Hio : forall i o,
        alter (setTargets (fun _ => [])) io (observers w) !! i = Some o ->
        (i = io /\ IntersectionObserver.targets o = []) \/ (i <> io /\ observers w !! i = Some o)).
    { intros i o H. destruct (Nat.eq_dec i io) as [->|Hne].
      - left. split; [reflexivity|]. rewrite list_lookup_alter_eq in H.
        destruct (observers w !! io); [|discriminate]. injection H as <-. reflexivity.
      - right. split; [exact Hne|]. rewrite list_lookup_alter_ne in H by congruence.
        exact H. }
    repeat match goal with |- _ /\ _ => split end; try reflexivity.
    + intros io' [= <-] Hin. apply In_live in Hin. cbn in Hin.
      destruct Hin as (o & Ho & Ht). destruct (Hio _ _ Ho) as [[_ E]|[E _]]; congruence.
    + intros Hsole i Hin. apply In_live in Hin. cbn in Hin.
      destruct Hin as (o & Ho & Ht). destruct (Hio _ _ Ho) as [[_ E]|[Hne Hold]].
      * congruence.
      * assert (Hl : In i (live w)) by (apply In_live; eauto).
        apply Hsole in Hl. congruence.
    + unfold set_observers; cbn. f_equal. apply alter_idem. reflexivity.
    + discriminate.
    + intros io' o entry rest Ho Hcb Hzero.
      destruct (ratio_zero_tests _ Hzero) as (Hlt & _ & _).
      unfold notify, bind, gets. cbn.
      assert (Hcb' : exists o', alter (setTargets (fun _ => [])) io (observers w) !! io'
                                = Some o'
                                /\ IntersectionObserver.callback o'
                                   = ViewportWindowDetectionCallback).
      { destruct (Nat.eq_dec io' io) as [->|Hne].
        - rewrite list_lookup_alter_eq, Ho. eexists. split; [reflexivity|exact Hcb].
        - rewrite list_lookup_alter_ne by congruence. eauto. }
      destruct Hcb' as (o' & -> & ->). cbn.
      js_run ltac:(rewrite ?Hlt). reflexivity.
  - repeat match goal with |- _ /\ _ => split end; try reflexivity; try discriminate.
    + intros Hsole i Hin. apply Hsole in Hin. congruence.
    + intros io' o entry rest Ho Hcb Hzero.
      destruct (ratio_zero_tests _ Hzero) as (Hlt & _ & _).
      unfold notify, bind, gets. rewrite Ho, Hcb. cbn.
      js_run ltac:(rewrite ?Hlt). reflexivity.
Qed.

(** ** The motion poller *)

Lemma In_cancelled (fs : list (nat * FrameRequest)) (h h' : nat) (f : FrameRequest) :
  In (h', f) (List.filter (fun hf => negb (Nat.eqb h (fst hf))) fs)
  <-> In (h', f) fs /\ h' <> h.
Proof.
  rewrite List.filter_In. cbn. destruct (Nat.eqb_spec h h') as [->|Hne]; cbn.
  - split; [intros [_ H]; discriminate|intros [_ H]; congruence].
  - split; intros [H _]; (split; [exact H|congruence]).
Qed.

Lemma pendingFrame_cancelled (fs : list (nat * FrameRequest)) (h : nat) :
  pendingFrame h (List.filter (fun hf => negb (Nat.eqb h (fst hf))) fs) = None.
Proof.
  unfold pendingFrame. induction fs as [|[h' f'] fs IH]; cbn; [reflexivity|].
  destruct (Nat.eqb_spec h h') as [->|Hne]; cbn; [exact IH|].
  destruct (Nat.eqb_spec h h'); [congruence|exact IH].
Qed.

Lemma cancel_twice (fs : list (nat * FrameRequest)) (h : nat) :
  let keep := fun hf : nat * FrameRequest => negb (Nat.eqb h (fst hf)) in
  List.filter keep (List.filter keep fs) = List.filter keep fs.
Proof.
  cbn. induction fs as [|[h' f'] fs IH]; cbn; [reflexivity|].
  destruct (Nat.eqb_spec h h') as [->|Hne]; cbn; [exact IH|].
  destruct (Nat.eqb_spec h h'); [congruence|]. cbn. f_equal. exact IH.
Qed.

(** An unchanged tick with a non-zero counter: the counter goes down by
    exactly one, the next tick is requested, nothing is reported. *)
Lemma still_tick_counts_down (w : World) (t : Element) (n : Z) :
  pollingStill w t n -> n <> 0%Z ->
  pollingStill (tick w) t (n - 1) /\ quietSince w (tick w).
Proof.
  intros (Ht & Hsame & Hn & Hfresh & h & Hraf & Hpend) Hnz.
  unfold tick, pollingStill, quietSince. rewrite Hraf.
  unfold exec, frame, bind, gets. rewrite Hpend.
  js_run ltac:(rewrite ?Ht, ?Hsame, ?Hn).
  destruct (Z.eqb_spec n 0) as [E|_]; [contradiction|]. cbn.
  repeat match goal with |- _ /\ _ => split end; try reflexivity; try assumption.
  - unfold freshFrames. cbn. intros h' f' Hin.
    apply in_app_or in Hin. destruct Hin as [Hin|[[= <- <-]|[]]].
    + apply In_cancelled in Hin. destruct Hin as [Hin _].
      specialize (Hfresh _ _ Hin). lia.
    + lia.
  - eexists. split; [reflexivity|]. apply pendingFrame_fresh.
    intros h' f' Hin. apply In_cancelled in Hin. destruct Hin as [Hin _].
    specialize (Hfresh _ _ Hin). lia.
  - intros h' f' Hin Hne. cbn in Hne.
    apply in_app_or in Hin. destruct Hin as [Hin|[[= <- <-]|[]]].
    + apply In_cancelled in Hin. destruct Hin as [Hin Hh]. split; [exact Hin|].
      congruence.
    + congruence.
Qed.

(** An unchanged tick with the counter at zero: the loop asks for no
    further frame and re-arms the coarse watcher; nothing is reported and
    the cached sample stays. *)
Lemma still_tick_ends_loop (w : World) (t : Element) :
  pollingStill w t 0 ->
  let w' := tick w in
  observers w' = observers w ++ [coarseWatcher w t]
  /\ intersectionObserver w' = Some (length (observers w))
  /\ target w' = Some t
  /\ reported w' = reported w
  /\ previousPositionInfo w' = previousPositionInfo w
  /\ (forall h f, In (h, f) (frames w') -> In (h, f) (frames w) /\ positionRAF w <> Some h)
  /\ tick w' = w'.
Proof.
  intros (Ht & Hsame & Hn & Hfresh & h & Hraf & Hpend) w'. subst w'.
  unfold tick. rewrite Hraf.
  unfold exec, frame, bind, gets. rewrite Hpend.
  js_run ltac:(rewrite ?Ht, ?Hsame, ?Hn, ?Hraf).
  assert (E : List.filter (fun hf : nat * FrameRequest => negb (h =? hf.1)%nat)
                (List.filter (fun hf : nat * FrameRequest => negb (h =? hf.1)%nat) (frames w))
              = List.filter (fun hf : nat * FrameRequest => negb (h =? hf.1)%nat) (frames w))
    by apply cancel_twice.
  destruct (Nat.eqb_spec h 0) as [Hz|Hz];
    js_run ltac:(rewrite ?E, ?Hraf, ?pendingFrame_cancelled, ?alter_new_observer).
  all: repeat match goal with |- _ /\ _ => split end; try reflexivity.
  all: intros h' f' Hin; apply In_cancelled in Hin; destruct Hin as [Hin Hne].
  all: split; [exact Hin|congruence].
Qed.

Lemma quietSince_refl (w : World) : quietSince w w.
Proof. unfold quietSince. repeat split; tauto. Qed.

Lemma quietSince_trans (w1 w2 w3 : World) :
  quietSince w1 w2 -> quietSince w2 w3 -> quietSince w1 w3.
Proof.
  unfold quietSince.
  intros (A1 & A2 & A3 & A4 & A5 & A6 & A7) (B1 & B2 & B3 & B4 & B5 & B6 & B7).
  repeat match goal with |- _ /\ _ => split end; try congruence.
  intros h f Hin Hne. destruct (B7 _ _ Hin Hne) as [Hin2 Hne2].
  exact (A7 _ _ Hin2 Hne2).
Qed.

Lemma ticks_succ (k : nat) (w : World) : ticks (S k) w = tick (ticks k w).
Proof.
  revert w. induction k as [|k IH]; intros w; [reflexivity|].
  change (ticks (S (S k)) w) with (ticks (S k) (tick w)). rewrite IH. reflexivity.
Qed.

(** [k] unchanged ticks take the counter from [k] down to zero, one by
    one. *)
Lemma still_ticks_count_down (t : Element) (k : nat) :
  forall w, pollingStill w t (Z.of_nat k) ->
  forall j, (j <= k)%nat ->
    pollingStill (ticks j w) t (Z.of_nat k - Z.of_nat j) /\ quietSince w (ticks j w).
Proof.
  induction k as [|k IH]; intros w Hp j Hj.
  - assert (j = 0%nat) as -> by lia. cbn. split; [exact Hp|apply quietSince_refl].
  - destruct j as [|j].
    + cbn [ticks]. rewrite Z.sub_0_r. split; [exact Hp|apply quietSince_refl].
    + destruct (still_tick_counts_down w t _ Hp ltac:(lia)) as [Hp' Hq].
      replace (Z.of_nat (S k) - 1)%Z with (Z.of_nat k) in Hp' by lia.
      destruct (IH _ Hp' j ltac:(lia)) as [Hp'' Hq'].
      cbn [ticks]. split.
      * replace (Z.of_nat (S k) - Z.of_nat (S j))%Z with (Z.of_nat k - Z.of_nat j)%Z by lia.
        exact Hp''.
      * exact (quietSince_trans _ _ _ Hq Hq').
Qed.

(** A tick that finds the bounds changed records them, reports once and
    re-arms the counter with [Math.ceil(waitTime / 16)]. *)
Lemma changed_tick_rearms (w : World) (t : Element) (h : nat) :
  target w = Some t ->
  positionChanged (previousPositionInfo w) (layout w t) = true ->
  freshFrames w ->
  positionRAF w = Some h ->
  pendingFrame h (frames w) = Some RepeatedCheck ->
  pollingStill (tick w) t (framesToWait (waitTime w))
  /\ reported (tick w)
     = reported w ++
       [{| PositionData.x := DOMRect.left (layout w t);
           PositionData.y := DOMRect.top (layout w t);
           PositionData.target := t;
           PositionData.outOfViewport := false;
           PositionData.rootBounds := Some (layout w t) |}].
Proof.
  intros Ht Hch Hfresh Hraf Hpend.
  unfold tick, pollingStill. rewrite Hraf.
  unfold exec, frame, bind, gets. rewrite Hpend.
  js_run ltac:(rewrite ?Ht, ?Hch).
  repeat match goal with |- _ /\ _ => split end; try reflexivity.
  - unfold positionChanged, sampleOf. cbn. rewrite !Qneqb_refl. reflexivity.
  - unfold freshFrames. cbn. intros h' f' Hin.
    apply in_app_or in Hin. destruct Hin as [Hin|[[= <- <-]|[]]].
    + apply In_cancelled in Hin. destruct Hin as [Hin _].
      specialize (Hfresh _ _ Hin). lia.
    + lia.
  - eexists. split; [reflexivity|]. apply pendingFrame_fresh.
    intros h' f' Hin. apply In_cancelled in Hin. destruct Hin as [Hin _].
    specialize (Hfresh _ _ Hin). lia.
Qed.

Lemma pollingWorld_still : pollingStill pollingWorld someTarget 0.
Proof.
  unfold pollingStill. repeat split; try (vm_compute; reflexivity).
  - apply freshFramesb_sound. vm_compute. reflexivity.
  - exists 2%nat. split; vm_compute; reflexivity.
Qed.

Lemma patientPollingWorld_still : pollingStill patientPollingWorld someTarget 2.
Proof.
  unfold pollingStill. repeat split; try (vm_compute; reflexivity).
  - apply freshFramesb_sound. vm_compute. reflexivity.
  - exists 2%nat. split; vm_compute; reflexivity.
Qed.

Lemma twoLoopsWorld_still : pollingStill twoLoopsWorld someTarget 62.
Proof.
  unfold pollingStill. repeat split; try (vm_compute; reflexivity).
  - apply freshFramesb_sound. vm_compute. reflexivity.
  - exists 7%nat. split; vm_compute; reflexivity.
Qed.

(** C7, as stated, fails twice.  On the cached sample: the bounds are
    unchanged, the counter is at zero, the tick ends the loop and re-arms
    the coarse watcher (observer 2), and the sample is still there.  On the
    bound: with both frame loops running, [stopConfirmationCheck] has
    re-armed the counter they share, and the poller finds the bounds
    unchanged with 62 on the counter although [Math.ceil(waitTime / 16)] is
    0; its next tick does not end the loop but counts down to 61 and
    requests another tick. *)
Lemma poller_keeps_sample_and_outlasts_wait :
  (pollingStill pollingWorld someTarget 0
   /\ (let wend := tick pollingWorld in
       frames wend = []
       /\ live wend = [2%nat]
       /\ previousPositionInfo wend = Some (sampleOf moved)
       /\ previousPositionInfo wend <> None))
  /\ (pollingStill twoLoopsWorld someTarget 62
      /\ framesToWait (waitTime twoLoopsWorld) = 0%Z
      /\ (let w1 := tick twoLoopsWorld in
          pollingStill w1 someTarget 61
          /\ reported w1 = reported twoLoopsWorld
          /\ positionRAF w1 = Some 8%nat
          /\ pendingFrame 8 (frames w1) = Some RepeatedCheck
          /\ observers w1 = observers twoLoopsWorld)).
Proof.
  split.
  - split; [exact pollingWorld_still|].
    vm_compute. repeat split. discriminate.
  - split; [exact twoLoopsWorld_still|]. split; [vm_compute; reflexivity|].
    assert (Hnz : 62%Z <> 0%Z) by discriminate.
    destruct (still_tick_counts_down twoLoopsWorld someTarget 62 twoLoopsWorld_still Hnz)
      as [Hstill (Hrep & Hobs & _)].
    split; [exact Hstill|]. split; [exact Hrep|].
    split; [vm_compute; reflexivity|]. split; [vm_compute; reflexivity|exact Hobs].
Qed.

(** Where the poller's counter comes from: the changed tick and the frame
    closure of the fine watcher both leave [waitTime] alone. *)
Lemma changed_tick_keeps_waitTime (w : World) (t : Element) (h : nat) :
  target w = Some t ->
  positionChanged (previousPositionInfo w) (layout w t) = true ->
  positionRAF w = Some h ->
  pendingFrame h (frames w) = Some RepeatedCheck ->
  waitTime (tick w) = waitTime w
  /\ timeToWaitTillStopConfirmed (tick w) = framesToWait (waitTime w).
Proof.
  intros Ht Hch Hraf Hpend.
  unfold tick. rewrite Hraf.
  unfold exec, frame, bind, gets. rewrite Hpend.
  js_run ltac:(rewrite ?Ht, ?Hch). split; reflexivity.
Qed.

Lemma fine_frame_arms_poller (w : World) (entry : Entry.t) :
  positionChanged (previousPositionInfo w) (Entry.boundingClientRect entry) = true ->
  0 < Entry.intersectionRatio entry ->
  Entry.intersectionRatio entry < 1 ->
  let w' := exec (finerWindowFrame entry) w in
  waitTime w' = waitTime w
  /\ timeToWaitTillStopConfirmed w' = framesToWait (waitTime w)
  /\ positionRAF w' = Some (nextFrame w)
  /\ frames w' = frames w ++ [(nextFrame w, RepeatedCheck)].
Proof.
  intros Hch H0 H1 w'. subst w'.
  destruct (ratio_partial_tests _ H0 H1) as (T1 & T2 & T3 & T4).
  destruct (intersectionObserver w) as [io|] eqn:Hio;
    js_run ltac:(rewrite ?Hch, ?T1, ?T2, ?T3, ?T4, ?Hio); repeat split; reflexivity.
Qed.

(** C7 (amended). Let the poller wait for a tick with the target where the
    cached sample says, and the counter at [n], and let only the poller's
    own frame requests run.  Then the next [n] ticks each find the counter
    non-zero and take exactly one off it, reporting nothing; the tick after
    them ends the loop: it requests no further frame, creates and
    subscribes a coarse watcher and makes it current, reports nothing, and
    later ticks do nothing.  The cached sample is kept as it was.  When the
    poller itself set the counter last -- in the tick before, which found
    the bounds changed, or in the frame closure of the fine watcher that
    started the loop -- then [n] is [Math.ceil(waitTime / 16)], so that the
    loop ends within that many ticks after the first unchanged one. *)
Theorem stillness_convergence (w : World) (t : Element) (n : Z) :
  pollingStill w t n ->
  (0 <= n)%Z ->
  let k := Z.to_nat n in
  let wend := ticks (S k) w in
  (forall j, (j <= k)%nat ->
        pollingStill (ticks j w) t (n - Z.of_nat j)
        /\ reported (ticks j w) = reported w)
  /\ (forall j, (j < k)%nat ->
        timeToWaitTillStopConfirmed (ticks j w) <> 0%Z
        /\ timeToWaitTillStopConfirmed (ticks (S j) w)
           = (timeToWaitTillStopConfirmed (ticks j w) - 1)%Z)
  /\ reported wend = reported w
  /\ observers wend = observers w ++ [coarseWatcher w t]
  /\ intersectionObserver wend = Some (length (observers w))
  /\ previousPositionInfo wend = previousPositionInfo w
  /\ (forall h f, In (h, f) (frames wend) ->
        In (h, f) (frames w) /\ positionRAF w <> Some h)
  /\ (forall j, ticks j wend = wend)
  /\ (forall w0 h,
        target w0 = Some t ->
        positionChanged (previousPositionInfo w0) (layout w0 t) = true ->
        positionRAF w0 = Some h ->
        pendingFrame h (frames w0) = Some RepeatedCheck ->
        w = tick w0 ->
        n = framesToWait (waitTime w)
        /\ k = Z.to_nat (framesToWait (waitTime w)))
  /\ (forall w0 entry,
        positionChanged (previousPositionInfo w0) (Entry.boundingClientRect entry) = true ->
        0 < Entry.intersectionRatio entry ->
        Entry.intersectionRatio entry < 1 ->
        w = exec (finerWindowFrame entry) w0 ->
        n = framesToWait (waitTime w)
        /\ k = Z.to_nat (framesToWait (waitTime w))).
Proof.
  intros Hp Hn0 k wend.
  assert (Hcnt : timeToWaitTillStopConfirmed w = n) by (destruct Hp as (_ & _ & Hc & _); exact Hc).
  assert (Hk : n = Z.of_nat k) by (subst k; lia).
  rewrite Hk in Hp.
  pose proof (still_ticks_count_down t k w Hp) as Hdown.
  assert (Hcount : forall j, (j <= k)%nat ->
            timeToWaitTillStopConfirmed (ticks j w) = (n - Z.of_nat j)%Z).
  { intros j Hj. destruct (Hdown j Hj) as [(_ & _ & Hc & _) _].
    rewrite Hc, Hk. reflexivity. }
  destruct (Hdown k (Nat.le_refl k)) as [Hlast Hquiet].
  rewrite Z.sub_diag in Hlast.
  destruct Hquiet as (Q1 & Q2 & Q3 & Q4 & Q5 & Q6 & Q7).
  destruct (still_tick_ends_loop _ _ Hlast) as (E1 & E2 & E3 & E4 & E5 & E6 & E7).
  fold wend in E1, E2, E3, E4, E5, E6, E7. subst wend. rewrite ticks_succ.
  repeat match goal with |- _ /\ _ => split end.
  - intros j Hj. destruct (Hdown j Hj) as [Hpj (Hr & _)].
    rewrite Hk. split; assumption.
  - intros j Hj. rewrite !Hcount by lia. split; lia.
  - congruence.
  - rewrite E1, Q2. unfold coarseWatcher. rewrite Q4. reflexivity.
  - rewrite E2, Q2. reflexivity.
  - congruence.
  - intros h f Hin. destruct (E6 _ _ Hin) as [Hin' Hne]. exact (Q7 _ _ Hin' Hne).
  - intros j. induction j as [|j IH]; [reflexivity|].
    cbn [ticks]. rewrite E7. exact IH.
  - intros w0 h Ht0 Hch0 Hraf0 Hpend0 Hw.
    destruct (changed_tick_keeps_waitTime w0 t h Ht0 Hch0 Hraf0 Hpend0) as [Hwt Hc].
    rewrite <- Hw in Hwt, Hc.
    assert (En : n = framesToWait (waitTime w)) by congruence.
    split; [exact En|]. subst k. rewrite En at 1. reflexivity.
  - intros w0 entry Hch0 H0 H1 Hw.
    destruct (fine_frame_arms_poller w0 entry Hch0 H0 H1) as (Hwt & Hc & _).
    cbv zeta in Hwt, Hc. rewrite <- Hw in Hwt, Hc.
    assert (En : n = framesToWait (waitTime w)) by congruence.
    split; [exact En|]. subst k. rewrite En at 1. reflexivity.
Qed.

(** ** What is reported *)

(** C8 at the failing input: the target moves while the poller runs.  The
    report of the fine watcher carried the root bounds of its entry; the
    report of the poll tick carries the target's own rectangle in
    [rootBounds]. *)
Lemma poller_reports_own_bounds_as_rootBounds :
  reported (run [MoveTo someTarget movedAgain; Frame 2%nat] pollingWorld)
  = [ {| PositionData.x := DOMRect.left moved;
         PositionData.y := DOMRect.top moved;
         PositionData.target := someTarget;
         PositionData.outOfViewport := false;
         PositionData.rootBounds := Some fittedRoot |};
      {| PositionData.x := DOMRect.left movedAgain;
         PositionData.y := DOMRect.top movedAgain;
         PositionData.target := someTarget;
         PositionData.outOfViewport := false;
         PositionData.rootBounds := Some movedAgain |} ]
  /\ Some movedAgain <> Some fittedRoot.
Proof.
  split; [vm_compute; reflexivity|discriminate].
Qed.

(** ** Batches *)

(** C9. Every watcher callback reads [e[0]] only: a batch behaves as its
    first entry alone would, in both variants, whatever follows it. *)
Theorem only_first_entry_of_batch_is_read (entry : Entry.t) (rest : list Entry.t) :
  (forall w, viewportWindowDetectionCallback (entry :: rest) w
             = viewportWindowDetectionCallback [entry] w)
  /\ (forall w, finerWindowCallback (entry :: rest) w = finerWindowCallback [entry] w)
  /\ (forall io w, notify io (entry :: rest) w = notify io [entry] w)
  /\ (forall w, TwoIoDifferingIr.viewportWindowDetectionCallback (entry :: rest) w
                = TwoIoDifferingIr.viewportWindowDetectionCallback [entry] w)
  /\ (forall w, TwoIoDifferingIr.finerWindowDetectionCallback (entry :: rest) w
                = TwoIoDifferingIr.finerWindowDetectionCallback [entry] w)
  /\ (forall w, TwoIoDifferingIr.backupViewportCallback (entry :: rest) w
                = TwoIoDifferingIr.backupViewportCallback [entry] w)
  /\ (forall io w, TwoIoDifferingIr.notify io (entry :: rest) w
                   = TwoIoDifferingIr.notify io [entry] w).
Proof.
  repeat match goal with |- _ /\ _ => split end; intros; try reflexivity.
  all: unfold notify, TwoIoDifferingIr.notify, bind, gets.
  all: match goal with
       | |- context [?obs !! ?io] => destruct (obs !! io) as [[[] ]|]
       end; reflexivity.
Qed.

(** ** The first poll tick *)

(** C10, as stated, fails: the frame closure of the fine watcher has
    recorded the sample before it asks for the first poll tick, so that
    tick, finding the target where the sample says, reports nothing. *)
Lemma first_poll_tick_can_be_silent :
  previousPositionInfo pollingWorld = Some (sampleOf moved)
  /\ layout pollingWorld someTarget = moved
  /\ frames pollingWorld = [(2%nat, RepeatedCheck)]
  /\ reported (run [Frame 2%nat] pollingWorld) = reported pollingWorld.
Proof.
  vm_compute. repeat split.
Qed.

(** C10 (amended). [hasPositionChanged] returns true whenever no sample is
    recorded, so a [repeatedCheck] tick that runs without a sample records
    the current bounds and reports exactly once, whatever the bounds are.
    In version-2, however, the frame closure of the fine watcher, which is
    what starts the polling, always leaves a sample recorded. *)
Theorem first_sample_always_changed (currentRect : DOMRect.t) :
  (forall w, previousPositionInfo w = None ->
     hasPositionChanged currentRect w = Returned true w)
  /\ (forall w t,
        previousPositionInfo w = None -> target w = Some t ->
        layout w t = currentRect ->
        let w' := exec repeatedCheck w in
        previousPositionInfo w' = Some (sampleOf currentRect)
        /\ reported w'
           = reported w ++
             [{| PositionData.x := DOMRect.left currentRect;
                 PositionData.y := DOMRect.top currentRect;
                 PositionData.target := t;
                 PositionData.outOfViewport := false;
                 PositionData.rootBounds := Some currentRect |}])
  /\ (forall w entry,
        previousPositionInfo (exec (finerWindowFrame entry) w) <> None).
Proof.
  repeat match goal with |- _ /\ _ => split end.
  - intros w H. unfold hasPositionChanged, gets. rewrite H. reflexivity.
  - intros w t Hnone Ht Hlay w'. subst w'.
    js_run ltac:(rewrite ?Ht, ?Hnone, ?Hlay). split; reflexivity.
  - intros w entry.
    assert (Hnone : forall r, positionChanged None r = true) by reflexivity.
    js_unfold.
    destruct (positionChanged (previousPositionInfo w) (Entry.boundingClientRect entry))
      eqn:Hch;
      destruct (previousPositionInfo w) as [p|] eqn:Hp;
      rewrite ?Hnone in Hch; try discriminate Hch;
      destruct (Qltb 0 (Entry.intersectionRatio entry));
      destruct (Qltb (Entry.intersectionRatio entry) 1);
      destruct (Qeq_bool (Entry.intersectionRatio entry) 0);
      destruct (Qeq_bool (Entry.intersectionRatio entry) 1);
      destruct (stopped w) eqn:Hst;
      destruct (intersectionObserver w) as [io|] eqn:Hio;
      js_run ltac:(rewrite ?Hp, ?Hst, ?Hio); discriminate.
Qed.

(** ** Frame handles stay fresh in every reachable world *)

Section Preservation.
Variable P : World -> Prop.

Lemma preserves_ret {A} (a : A) : preserves P (ret a).
Proof. intros w H. exact H. Qed.

Lemma preserves_throw {A} : preserves P (@throw World A).
Proof. intros w H. exact H. Qed.

Lemma preserves_gets {A} (f : World -> A) : preserves P (gets f).
Proof. intros w H. exact H. Qed.

Lemma preserves_bind {A B} (m : Js World A) (k : A -> Js World B) :
  preserves P m -> (forall a, preserves P (k a)) -> preserves P (bind m k).
Proof.
  intros Hm Hk w H. specialize (Hm w H). unfold bind.
  destruct (m w) as [a w'|w']; cbn in Hm |- *; [apply Hk|]; exact Hm.
Qed.

Lemma preserves_when (b : bool) (m : Js World unit) :
  preserves P m -> preserves P (when b m).
Proof. intros Hm. destruct b; [exact Hm|apply preserves_ret]. Qed.

Lemma preserves_modify (f : World -> World) :
  (forall w, P w -> P (f w)) -> preserves P (modify f).
Proof. intros Hf w H. apply Hf, H. Qed.
End Preservation.

Lemma freshFrames_same (w w' : World) :
  frames w' = frames w -> nextFrame w' = nextFrame w ->
  freshFrames w -> freshFrames w'.
Proof.
  unfold freshFrames. intros -> -> H. exact H.
Qed.

Lemma fresh_requestAnimationFrame (f : FrameRequest) :
  preserves freshFrames (requestAnimationFrame f).
Proof.
  intros w H h' f' Hin. cbn in Hin |- *.
  apply in_app_or in Hin. destruct Hin as [Hin|[[= <- <-]|[]]].
  - specialize (H _ _ Hin). lia.
  - lia.
Qed.

Lemma fresh_cancelAnimationFrame (h : nat) :
  preserves freshFrames (cancelAnimationFrame h).
Proof.
  intros w H h' f' Hin. cbn in Hin |- *.
  apply In_cancelled in Hin. destruct Hin as [Hin _]. exact (H _ _ Hin).
Qed.

(** One step of a preservation proof for [freshFrames]: through the monad,
    through the tests, and through the updates that leave the frame queue
    alone. *)
Ltac fresh_go :=
  first
    [ apply preserves_ret
    | apply preserves_throw
    | apply preserves_gets
    | apply fresh_requestAnimationFrame
    | apply fresh_cancelAnimationFrame
    | apply preserves_bind; [|intros ?]
    | apply preserves_when
    | apply preserves_modify;
      intros ? ?; eapply freshFrames_same; [reflexivity|reflexivity|eassumption]
    | match goal with
      | |- preserves _ (match ?x with _ => _ end) => destruct x
      end ].

Ltac fresh_method :=
  unfold viewportWindowDetectionCallback, finerWindowFrame, repeatedCheck,
    stopConfirmationCheck, finerWindowCallback, disconnect, observe,
    hasPositionChanged, updatePosition, positionObserverCallback,
    getBoundingClientRect, cancelPositionRAF,
    onIntersectionObserver, io_observe, io_unobserve,
    io_disconnect, newIntersectionObserver, firstEntry, asDOMRect, moveTo;
  cbv zeta; repeat fresh_go.

Lemma fresh_observe (t : Element) : preserves freshFrames (observe t).
Proof. fresh_method. Qed.

Lemma fresh_disconnect : preserves freshFrames disconnect.
Proof. fresh_method. Qed.

Lemma fresh_notify (io : nat) (e : list Entry.t) : preserves freshFrames (notify io e).
Proof.
  unfold notify. apply preserves_bind; [apply preserves_gets|intros obs].
  destruct (obs !! io) as [[[] ? ? ?]|]; cbn [runHandler IntersectionObserver.callback];
    fresh_method.
Qed.

Lemma fresh_frame (h : nat) : preserves freshFrames (frame h).
Proof.
  unfold frame. apply preserves_bind; [apply preserves_gets|intros fs].
  destruct (pendingFrame h fs) as [[| |entry]|]; cbn [runFrame]; fresh_method.
Qed.

Lemma fresh_step (ev : Event) : preserves freshFrames (step ev).
Proof.
  destruct ev; cbn [step].
  - apply fresh_observe.
  - apply fresh_disconnect.
  - apply fresh_notify.
  - apply fresh_frame.
  - fresh_method.
Qed.

(** Whatever the page and the caller do with a new observer, a frame request
    that is pending carries a handle already given out. *)
Theorem reachable_freshFrames (evs : list Event) (thresholdFraction : nat)
    (page : Element -> DOMRect.t) (vv : VisualViewport.t) :
  freshFrames (run evs (construct thresholdFraction page vv)).
Proof.
  assert (H : freshFrames (construct thresholdFraction page vv))
    by (intros h f []).
  revert H. generalize (construct thresholdFraction page vv).
  induction evs as [|ev evs IH]; intros w H; cbn [run]; [exact H|].
  apply IH. apply fresh_step, H.
Qed.

(** ** The documented revision: what its clearing helpers change *)

Ltac documented_unfold :=
  unfold exec, Documented.disconnect, Documented.stopConfirmationCheck,
    Documented.finerWindowCallback, Documented.finerWindowFrame,
    Documented.viewportWindowDetectionCallback, Documented.observe,
    Documented.reportPosition, Documented.clearPositionInfo,
    Documented.clearRequestAnimationFrame;
  js_unfold.

(** Decide the tests with the equations at hand. *)
Ltac settle :=
  repeat (progress (cbn; repeat match goal with
                                | H : _ = _ |- _ => rewrite H
                                end)).

(** There [disconnect] also forgets the cached sample and cancels the frame
    request the instance holds. *)
Lemma documented_disconnect_clears (w : World) :
  let w1 := exec Documented.disconnect w in
  previousPositionInfo w1 = None
  /\ reported w1 = reported w
  /\ (forall h, positionRAF w = Some h -> h <> 0%nat ->
        pendingFrame h (frames w1) = None).
Proof.
  intros w1. subst w1. documented_unfold.
  destruct (intersectionObserver w) as [io|] eqn:Hio;
    (destruct (positionRAF w) as [h|] eqn:Hraf;
     [destruct (Nat.eqb h 0) eqn:Hz|]);
    settle; repeat split; try reflexivity; try discriminate.
  all: intros h' [= <-] Hne;
    try (apply Nat.eqb_eq in Hz; contradiction).
  all: apply pendingFrame_cancelled.
Qed.

(** There too, nothing records the disconnect: the frame closure that a
    notification queued before [disconnect] runs afterwards, reports, and
    starts the frame loop. *)
Lemma documented_queued_closure_reports_after_disconnect :
  let w := Documented.run
             [MoveTo someTarget moved; Notify 1%nat [startedMoving]; Disconnect;
              Frame 1%nat]
             documentedFineWorld in
  reported w
  = [{| PositionData.x := DOMRect.left moved;
        PositionData.y := DOMRect.top moved;
        PositionData.target := someTarget;
        PositionData.outOfViewport := false;
        PositionData.rootBounds := Some fittedRoot |}]
  /\ frames w = [(2%nat, StopConfirmationCheck)].
Proof.
  vm_compute. split; reflexivity.
Qed.

(** There the frame loop forgets the cached sample when it ends. *)
Lemma documented_loop_end_clears_sample (w : World) (t : Element) :
  target w = Some t ->
  positionChanged (previousPositionInfo w) (layout w t) = false ->
  timeToWaitTillStopConfirmed w = 0%Z ->
  previousPositionInfo (exec Documented.stopConfirmationCheck w) = None.
Proof.
  intros Ht Hsame Hn. documented_unfold.
  (destruct (positionRAF w) as [h|] eqn:Hraf;
   [destruct (Nat.eqb h 0) eqn:Hz|]);
    settle; reflexivity.
Qed.

(** There the fine watcher forgets the cached sample before it queues its
    frame closure, so the first tick of the loop finds none. *)
Lemma documented_fine_notification_clears_sample (w : World) (e : list Entry.t) :
  previousPositionInfo (exec (Documented.finerWindowCallback e) w) = None.
Proof.
  documented_unfold.
  (destruct (positionRAF w) as [h|] eqn:Hraf;
   [destruct (Nat.eqb h 0) eqn:Hz|]);
    settle; destruct e; reflexivity.
Qed.

(** There, unlike in version-2, ratio 0 counts as a partial exit: the frame
    closure of the fine watcher starts the frame loop and creates no coarse
    watcher. *)
Lemma documented_zero_ratio_starts_loop (w : World) (entry : Entry.t) :
  Entry.intersectionRatio entry == 0 ->
  let w2 := exec (Documented.finerWindowFrame entry) w in
  frames w2 = frames w ++ [(nextFrame w, StopConfirmationCheck)]
  /\ positionRAF w2 = Some (nextFrame w)
  /\ length (observers w2) = length (observers w).
Proof.
  intros Hzero w2. subst w2.
  destruct (ratio_zero_tests _ Hzero) as (_ & _ & H1).
  assert (Hle : Qle_bool 0 (Entry.intersectionRatio entry) = true).
  { apply Qle_bool_iff. rewrite Hzero. apply Qle_refl. }
  assert (Hlt : Qltb (Entry.intersectionRatio entry) 1 = true).
  { apply Qltb_lt. rewrite Hzero. reflexivity. }
  documented_unfold. rewrite H1, Hle, Hlt.
  destruct (intersectionObserver w) as [io|] eqn:Hio; settle;
    rewrite ?length_alter; repeat split; reflexivity.
Qed.

(** ** The theorems at work on the example page *)


Lemma fineWorld_soleLive : soleLive fineWorld.
Proof. apply soleLiveb_sound. vm_compute. reflexivity. Qed.

Lemma coarse_zero_ratio_single_report_witness :
  Entry.intersectionRatio outsideViewport == 0
  /\ intersectionObserver coarseWorld = Some 0%nat
  /\ notify 0 [outsideViewport] coarseWorld
     = Returned tt
         (set_reported
            [{| PositionData.x := 1200;
                PositionData.y := 100;
                PositionData.target := someTarget;
                PositionData.outOfViewport := true;
                PositionData.rootBounds := Some wideViewport |}]
            coarseWorld).
Proof.
  assert (H : Entry.intersectionRatio outsideViewport == 0) by (vm_compute; reflexivity).
  split; [exact H|].
  exact (coarse_zero_ratio_single_report (newPage offScreen) someTarget
           outsideViewport [] H).
Defined.




Lemma disconnect_unsubscribes_silently_witness :
  (let w1 := exec disconnect fineWorld in
   reported w1 = reported fineWorld
   /\ ~ In 1%nat (live w1)
   /\ (forall i, ~ In i (live w1))
   /\ exec disconnect w1 = w1)
  /\ exec disconnect (newPage atRest) = newPage atRest
  /\ reported (exec (notify 0 [outsideViewport]) (exec disconnect coarseWorld))
     = reported coarseWorld ++
       [{| PositionData.x := DOMRect.left (Entry.boundingClientRect outsideViewport);
           PositionData.y := DOMRect.top (Entry.boundingClientRect outsideViewport);
           PositionData.target := Entry.target outsideViewport;
           PositionData.outOfViewport := true;
           PositionData.rootBounds := Entry.rootBounds outsideViewport |}].
Proof.
  assert (Hcur : intersectionObserver fineWorld = Some 1%nat) by (vm_compute; reflexivity).
  assert (Hidle : intersectionObserver (newPage atRest) = None) by (vm_compute; reflexivity).
  assert (Hobs : observers coarseWorld !! 0%nat = Some (coarseWatcher coarseWorld someTarget))
    by (vm_compute; reflexivity).
  assert (Hcb : IntersectionObserver.callback (coarseWatcher coarseWorld someTarget)
                = ViewportWindowDetectionCallback) by (vm_compute; reflexivity).
  assert (Hzero : Entry.intersectionRatio outsideViewport == 0) by (vm_compute; reflexivity).
  destruct (disconnect_unsubscribes_silently fineWorld)
    as (_ & Hrep & Hio & Hnone & Hidem & _).
  destruct (disconnect_unsubscribes_silently (newPage atRest))
    as (_ & _ & _ & _ & _ & Hnoop & _).
  destruct (disconnect_unsubscribes_silently coarseWorld)
    as (_ & _ & _ & _ & _ & _ & Hstale).
  split; [|split; [exact (Hnoop Hidle)|]].
  - split; [exact Hrep|].
    split; [exact (Hio 1%nat Hcur)|].
    split; [exact (Hnone fineWorld_soleLive)|exact Hidem].
  - exact (Hstale 0%nat _ outsideViewport [] Hobs Hcb Hzero).
Defined.

Lemma stillness_convergence_witness :
  let w0 := exec (moveTo someTarget movedAgain) patientPollingWorld in
  let w := tick w0 in
  let wend := ticks 3 w in
  (forall j, (j <= 2)%nat ->
        pollingStill (ticks j w) someTarget (2 - Z.of_nat j)
        /\ reported (ticks j w) = reported w)
  /\ reported wend = reported w
  /\ observers wend = observers w ++ [coarseWatcher w someTarget]
  /\ previousPositionInfo wend = Some (sampleOf movedAgain)
  /\ (forall j, ticks j wend = wend)
  /\ 2%Z = framesToWait (waitTime w).
Proof.
  intros w0 w wend.
  assert (Ht0 : target w0 = Some someTarget) by (vm_compute; reflexivity).
  assert (Hch0 : positionChanged (previousPositionInfo w0) (layout w0 someTarget) = true)
    by (vm_compute; reflexivity).
  assert (Hfresh0 : freshFrames w0)
    by (apply freshFramesb_sound; vm_compute; reflexivity).
  assert (Hraf0 : positionRAF w0 = Some 2%nat) by (vm_compute; reflexivity).
  assert (Hpend0 : pendingFrame 2 (frames w0) = Some RepeatedCheck)
    by (vm_compute; reflexivity).
  assert (Hstill : pollingStill w someTarget 2).
  { destruct (changed_tick_rearms w0 someTarget 2 Ht0 Hch0 Hfresh0 Hraf0 Hpend0)
      as [Hp _].
    assert (E : framesToWait (waitTime w0) = 2%Z) by (vm_compute; reflexivity).
    rewrite E in Hp. exact Hp. }
  assert (Hn : (0 <= 2)%Z) by lia.
  destruct (stillness_convergence w someTarget 2 Hstill Hn)
    as (Hdown & _ & Hrep & Hobs & _ & Hsample & _ & Hidle & Hbound & _).
  split; [exact Hdown|]. split; [exact Hrep|]. split; [exact Hobs|].
  split; [etransitivity; [exact Hsample|vm_compute; reflexivity]|].
  split; [exact Hidle|].
  exact (proj1 (Hbound w0 2%nat Ht0 Hch0 Hraf0 Hpend0 eq_refl)).
Defined.

Lemma first_sample_always_changed_witness :
  let w := set_previousPositionInfo None pollingWorld in
  hasPositionChanged moved w = Returned true w
  /\ previousPositionInfo (exec repeatedCheck w) = Some (sampleOf moved)
  /\ reported (exec repeatedCheck w)
     = reported w ++
       [{| PositionData.x := DOMRect.left moved;
           PositionData.y := DOMRect.top moved;
           PositionData.target := someTarget;
           PositionData.outOfViewport := false;
           PositionData.rootBounds := Some moved |}].
Proof.
  intros w.
  assert (Hnone : previousPositionInfo w = None) by (vm_compute; reflexivity).
  assert (Ht : target w = Some someTarget) by (vm_compute; reflexivity).
  assert (Hlay : layout w someTarget = moved) by (vm_compute; reflexivity).
  destruct (first_sample_always_changed moved) as (Hfirst & Htick & _).
  split; [exact (Hfirst w Hnone)|].
  exact (Htick w someTarget Hnone Ht Hlay).
Defined.

(** * Further properties of the code *)

(** ** The threshold table *)

Lemma thresholds_nth_error (N k : nat) :
  (k <= N)%nat ->
  nth_error (thresholds N) k
  = Some (inject_Z (Z.of_nat k) / inject_Z (Z.of_nat N)).
Proof.
  intros Hk. unfold thresholds.
  rewrite nth_error_map, nth_error_seq.
  destruct (Nat.ltb_spec k (N + 1)) as [_|H]; [reflexivity|lia].
Qed.

Lemma thresholds_In (N : nat) (q : Q) :
  In q (thresholds N) ->
  exists k, (k <= N)%nat /\ q = inject_Z (Z.of_nat k) / inject_Z (Z.of_nat N).
Proof.
  unfold thresholds. rewrite in_map_iff. intros (k & <- & Hin).
  apply in_seq in Hin. exists k. split; [lia|reflexivity].
Qed.

Lemma fraction_lt (i j N : nat) :
  (0 < N)%nat -> (i < j)%nat ->
  inject_Z (Z.of_nat i) / inject_Z (Z.of_nat N)
  < inject_Z (Z.of_nat j) / inject_Z (Z.of_nat N).
Proof.
  intros HN Hij. unfold Qdiv. apply Qmult_lt_compat_r.
  - apply Qinv_lt_0_compat. rewrite <- (Zlt_Qlt 0). lia.
  - rewrite <- Zlt_Qlt. lia.
Qed.

(** X1. For a positive step count [N] the constructor's threshold table has
    [N + 1] entries, entry [k] is [k / N], the table starts at 0, ends at 1,
    stays within [0, 1] and is strictly ascending. *)
Theorem thresholds_table (N : nat) :
  (0 < N)%nat ->
  length (thresholds N) = S N
  /\ (forall k, (k <= N)%nat ->
        nth_error (thresholds N) k
        = Some (inject_Z (Z.of_nat k) / inject_Z (Z.of_nat N)))
  /\ (exists first last,
        nth_error (thresholds N) 0 = Some first /\ first == 0
        /\ nth_error (thresholds N) N = Some last /\ last == 1)
  /\ (forall q, In q (thresholds N) -> 0 <= q /\ q <= 1)
  /\ (forall i j p q,
        nth_error (thresholds N) i = Some p ->
        nth_error (thresholds N) j = Some q ->
        (i < j)%nat -> p < q).
Proof.
  intros HN.
  assert (HNq : 0 < inject_Z (Z.of_nat N)) by (rewrite <- (Zlt_Qlt 0); lia).
  repeat match goal with |- _ /\ _ => split end.
  - unfold thresholds. rewrite length_map, length_seq. lia.
  - intros k Hk. apply thresholds_nth_error, Hk.
  - exists (inject_Z (Z.of_nat 0) / inject_Z (Z.of_nat N)),
           (inject_Z (Z.of_nat N) / inject_Z (Z.of_nat N)).
    split; [apply thresholds_nth_error; lia|].
    split; [unfold Qdiv; apply Qmult_0_l|].
    split; [apply thresholds_nth_error; lia|].
    apply Qmult_inv_r. intros E. rewrite E in HNq. exact (Qlt_irrefl _ HNq).
  - intros q Hq. split.
    + apply thresholds_In in Hq. destruct Hq as (k & Hk & ->).
      apply Qle_shift_div_l; [exact HNq|].
      rewrite Qmult_0_l. rewrite <- (Zle_Qle 0). lia.
    + apply thresholds_In in Hq. destruct Hq as (k & Hk & ->).
      apply Qle_shift_div_r; [exact HNq|].
      rewrite Qmult_1_l. rewrite <- Zle_Qle. lia.
  - intros i j p q Hi Hj Hij.
    assert (HjN : (j <= N)%nat).
    { assert (Hl : (j < length (thresholds N))%nat)
        by (apply nth_error_Some; congruence).
      unfold thresholds in Hl. rewrite length_map, length_seq in Hl. lia. }
    rewrite thresholds_nth_error in Hi, Hj by lia.
    injection Hi as <-. injection Hj as <-.
    apply fraction_lt; assumption.
Qed.

Lemma thresholds_table_witness :
  length (thresholds 4) = 5%nat
  /\ nth_error (thresholds 4) 3 = Some (3 / 4).
Proof.
  assert (H : (0 < 4)%nat) by lia.
  destruct (thresholds_table 4 H) as (Hlen & Hk & _).
  split; [exact Hlen|].
  exact (Hk 3%nat ltac:(lia)).
Defined.

(** ** More geometry *)







(** ** The cached sample *)

Lemma Qneqb_false (a b : Q) : Qneqb a b = false <-> a == b.
Proof.
  unfold Qneqb. rewrite negb_false_iff. apply Qeq_bool_iff.
Qed.


(** ** The coarse watcher of version-2, further *)

(** X6. A coarse notification with a positive ratio and root bounds reports
    nothing: it leaves the current watcher without a target and installs a
    fine watcher, current and subscribed to the entry's target, whose margins
    are those of the window fitted to the intersection rectangle.  No frame
    is requested and the cached sample is not touched. *)
Theorem coarse_positive_ratio_installs_fine_watcher (w : World) (io : nat)
    (o : IntersectionObserver.t) (entry : Entry.t) (rest : list Entry.t)
    (rb : DOMRect.t) :
  intersectionObserver w = Some io ->
  observers w !! io = Some o ->
  0 < Entry.intersectionRatio entry ->
  Entry.rootBounds entry = Some rb ->
  let w2 := exec (viewportWindowDetectionCallback (entry :: rest)) w in
  let fine := length (observers w) in
  throws (viewportWindowDetectionCallback (entry :: rest)) w = false
  /\ reported w2 = reported w
  /\ frames w2 = frames w
  /\ previousPositionInfo w2 = previousPositionInfo w
  /\ unsubscribed w2 io
  /\ intersectionObserver w2 = Some fine
  /\ observers w2 !! fine
     = Some (IntersectionObserver.mk FinerWindowCallback (thresholdList w)
               (getMargins (visualViewport w)
                  (constructBoxWindow (Entry.intersectionRect entry) rb) (Some rb))
               [Entry.target entry]).
Proof.
  intros Hcur Hio Hpos Hrb w2 fine. subst w2 fine.
  unfold throws, unsubscribed. js_unfold.
  rewrite (ratio_positive_test _ Hpos), Hrb.
  repeat (progress (cbn; rewrite ?Hcur)).
  rewrite ?length_alter.
  repeat match goal with |- _ /\ _ => split end; try reflexivity.
  - eexists. split;
      [ rewrite list_lookup_alter_ne, lookup_app_l
          by (rewrite ?length_alter; apply lookup_lt_Some in Hio; lia);
        apply alter_alter_lookup, Hio
      | reflexivity ].
  - rewrite lookup_new_observer by (rewrite ?length_alter; reflexivity).
    reflexivity.
Qed.

Lemma coarse_positive_ratio_installs_fine_watcher_witness :
  let w := exec (observe someTarget) (newPage atRest) in
  let w2 := exec (viewportWindowDetectionCallback [enteredViewport]) w in
  reported w2 = reported w
  /\ frames w2 = frames w
  /\ unsubscribed w2 0
  /\ intersectionObserver w2 = Some (length (observers w)).
Proof.
  intros w w2.
  assert (Hcur : intersectionObserver w = Some 0%nat) by (vm_compute; reflexivity).
  assert (Hio : observers w !! 0%nat = Some (coarseWatcher (newPage atRest) someTarget))
    by (vm_compute; reflexivity).
  assert (Hpos : 0 < Entry.intersectionRatio enteredViewport)
    by (vm_compute; reflexivity).
  assert (Hrb : Entry.rootBounds enteredViewport = Some wideViewport)
    by (vm_compute; reflexivity).
  destruct (coarse_positive_ratio_installs_fine_watcher w 0 _ enteredViewport []
              wideViewport Hcur Hio Hpos Hrb)
    as (_ & Hrep & Hfr & _ & Hun & Hnew & _).
  split; [exact Hrep|]. split; [exact Hfr|]. split; [exact Hun|exact Hnew].
Defined.

(** X7. A coarse notification with a positive ratio but without root bounds
    throws, after the current watcher was torn down and before a fine
    watcher exists: nothing is reported, no observer is created, the
    instance still refers to the old watcher, and that watcher observes
    nothing any more. *)
Theorem coarse_positive_ratio_without_root_bounds (w : World) (io : nat)
    (entry : Entry.t) (rest : list Entry.t) :
  intersectionObserver w = Some io ->
  0 < Entry.intersectionRatio entry ->
  Entry.rootBounds entry = None ->
  let w2 := exec (viewportWindowDetectionCallback (entry :: rest)) w in
  throws (viewportWindowDetectionCallback (entry :: rest)) w = true
  /\ reported w2 = reported w
  /\ length (observers w2) = length (observers w)
  /\ intersectionObserver w2 = Some io
  /\ ~ In io (live w2)
  /\ (soleLive w -> forall i, ~ In i (live w2)).
Proof.
  intros Hcur Hpos Hrb w2. subst w2. unfold throws. js_unfold.
  rewrite (ratio_positive_test _ Hpos), Hrb.
  repeat (progress (cbn; rewrite ?Hcur)).
  repeat match goal with |- _ /\ _ => split end; try reflexivity.
  - rewrite !length_alter. reflexivity.
  - intros Hin. apply In_live in Hin. cbn in Hin. destruct Hin as (o & Ho & Ht).
    destruct (cleared_lookup _ _ _ _ _ Ho) as [[_ E]|[E _]]; congruence.
  - intros Hsole i Hin. apply In_live in Hin. cbn in Hin.
    destruct Hin as (o & Ho & Ht).
    destruct (cleared_lookup _ _ _ _ _ Ho) as [[_ E]|[Hne Hold]]; [congruence|].
    assert (Hl : In i (live w)) by (apply In_live; eauto).
    apply Hsole in Hl. congruence.
Qed.

Lemma coarse_positive_ratio_without_root_bounds_witness :
  let entry := Entry.mk someTarget atRest atRest None 1 in
  let w2 := exec (viewportWindowDetectionCallback [entry]) coarseWorld in
  throws (viewportWindowDetectionCallback [entry]) coarseWorld = true
  /\ reported w2 = reported coarseWorld
  /\ length (observers w2) = length (observers coarseWorld)
  /\ intersectionObserver w2 = Some 0%nat
  /\ ~ In 0%nat (live w2)
  /\ (soleLive coarseWorld -> forall i, ~ In i (live w2)).
Proof.
  intros entry w2.
  assert (Hcur : intersectionObserver coarseWorld = Some 0%nat)
    by (vm_compute; reflexivity).
  assert (Hpos : 0 < Entry.intersectionRatio entry) by (vm_compute; reflexivity).
  assert (Hrb : Entry.rootBounds entry = None) by (vm_compute; reflexivity).
  exact (coarse_positive_ratio_without_root_bounds coarseWorld 0 entry []
           Hcur Hpos Hrb).
Defined.

(** X8. An empty batch makes every watcher callback of version-2 and of the
    two-io variant throw before it has changed anything; a batch for an
    observer that does not exist is ignored. *)
Theorem empty_batch_throws_unchanged :
  (forall (w : World) (io : nat),
     exec (notify io []) w = w
     /\ throws (notify io []) w
        = match observers w !! io with Some _ => true | None => false end)
  /\ (forall (w : TwoIoDifferingIr.World) (io : nat),
        exec (TwoIoDifferingIr.notify io []) w = w
        /\ throws (TwoIoDifferingIr.notify io []) w
           = match TwoIoDifferingIr.observers w !! io with
             | Some _ => true
             | None => false
             end).
Proof.
  split; intros w io.
  - unfold exec, throws, notify, bind, gets.
    destruct (observers w !! io) as [[[] ]|]; split; reflexivity.
  - unfold exec, throws, TwoIoDifferingIr.notify, bind, gets.
    destruct (TwoIoDifferingIr.observers w !! io) as [[[] ]|]; split; reflexivity.
Qed.

(** ** The fine watcher of version-2, further *)

Lemma ratio_one_tests (q : Q) :
  q == 1 ->
  Qltb 0 q = true /\ Qltb q 1 = false /\ Qeq_bool q 0 = false /\ Qeq_bool q 1 = true.
Proof.
  intros H. repeat split.
  - apply Qltb_lt. rewrite H. reflexivity.
  - apply Qltb_ge. rewrite H. apply Qle_refl.
  - destruct (Qeq_bool q 0) eqn:E; [|reflexivity].
    apply Qeq_bool_iff in E. rewrite H in E. discriminate E.
  - apply Qeq_bool_iff, H.
Qed.

(** X9. The frame closure of the fine watcher does nothing at all when the
    entry's bounds are the cached sample and either the ratio is strictly
    between 0 and 1, or the ratio is 1 and the stop was already confirmed:
    no report, no frame request, no change of watcher. *)
Theorem fine_frame_inert_on_cached_sample (w : World) (entry : Entry.t) :
  positionChanged (previousPositionInfo w) (Entry.boundingClientRect entry) = false ->
  (0 < Entry.intersectionRatio entry /\ Entry.intersectionRatio entry < 1)
  \/ (Entry.intersectionRatio entry == 1 /\ stopped w = true) ->
  finerWindowFrame entry w = Returned tt w.
Proof.
  intros Hsame [[Hpos Hlt]|[Hone Hst]].
  - destruct (ratio_partial_tests _ Hpos Hlt) as (_ & _ & H0 & H1).
    js_unfold. rewrite Hsame, H0, H1. reflexivity.
  - destruct (ratio_one_tests _ Hone) as (_ & _ & H0 & H1).
    js_unfold. rewrite Hsame, H0, H1. cbn. rewrite Hst. reflexivity.
Qed.

(** X10. At ratio 1 the frame closure of the fine watcher keeps the fine
    watcher as it is and, unless the stop was already confirmed for the
    cached sample, starts the stop-confirmation loop with
    [Math.ceil(stopWaitTime / 16)] frames to wait; it reports once if the
    entry's bounds differ from the cached sample and not at all
    otherwise. *)
Theorem fine_full_ratio_starts_stop_confirmation (w : World) (entry : Entry.t) :
  Entry.intersectionRatio entry == 1 ->
  stopped w = false
  \/ positionChanged (previousPositionInfo w) (Entry.boundingClientRect entry) = true ->
  let w2 := exec (finerWindowFrame entry) w in
  frames w2 = frames w ++ [(nextFrame w, StopConfirmationCheck)]
  /\ positionRAF w2 = Some (nextFrame w)
  /\ timeToWaitTillStopConfirmed w2 = framesToWait (stopWaitTime w)
  /\ stopped w2 = false
  /\ observers w2 = observers w
  /\ intersectionObserver w2 = intersectionObserver w
  /\ reported w2
     = reported w ++
       (if positionChanged (previousPositionInfo w) (Entry.boundingClientRect entry)
        then [{| PositionData.x := DOMRect.left (Entry.boundingClientRect entry);
                 PositionData.y := DOMRect.top (Entry.boundingClientRect entry);
                 PositionData.target := Entry.target entry;
                 PositionData.outOfViewport := false;
                 PositionData.rootBounds := Entry.rootBounds entry |}]
        else []).
Proof.
  intros Hone Hgo w2. subst w2.
  destruct (ratio_one_tests _ Hone) as (Ha & Hb & H0 & H1).
  js_unfold. rewrite Ha, Hb, H0, H1.
  destruct (positionChanged (previousPositionInfo w) (Entry.boundingClientRect entry))
    eqn:Hch; cbn.
  - repeat split; reflexivity.
  - destruct Hgo as [Hst|Hst]; [|discriminate Hst]. rewrite Hst. cbn.
    rewrite app_nil_r. repeat split; try reflexivity. exact Hst.
Qed.

Lemma fine_frame_inert_on_cached_sample_witness :
  finerWindowFrame startedMoving pollingWorld = Returned tt pollingWorld.
Proof.
  assert (Hsame : positionChanged (previousPositionInfo pollingWorld)
                    (Entry.boundingClientRect startedMoving) = false)
    by (vm_compute; reflexivity).
  assert (Hpos : 0 < Entry.intersectionRatio startedMoving)
    by (vm_compute; reflexivity).
  assert (Hlt : Entry.intersectionRatio startedMoving < 1)
    by (vm_compute; reflexivity).
  exact (fine_frame_inert_on_cached_sample pollingWorld startedMoving Hsame
           (or_introl (conj Hpos Hlt))).
Defined.

Lemma fine_full_ratio_starts_stop_confirmation_witness :
  let w2 := exec (finerWindowFrame enteredViewport) fineWorld in
  frames w2 = frames fineWorld ++ [(nextFrame fineWorld, StopConfirmationCheck)]
  /\ timeToWaitTillStopConfirmed w2 = framesToWait (stopWaitTime fineWorld).
Proof.
  intros w2.
  assert (Hone : Entry.intersectionRatio enteredViewport == 1)
    by (vm_compute; reflexivity).
  assert (Hst : stopped fineWorld = false) by (vm_compute; reflexivity).
  destruct (fine_full_ratio_starts_stop_confirmation fineWorld enteredViewport
              Hone (or_introl Hst)) as (Hfr & _ & Hcount & _).
  split; [exact Hfr|exact Hcount].
Defined.

(** ** The stop-confirmation loop of version-2 *)

Lemma confirm_tick_counts_down (w : World) (t : Element) (n : Z) :
  confirmingStill w t n -> n <> 0%Z ->
  confirmingStill (tick w) t (n - 1)
  /\ quietSince w (tick w)
  /\ stopped (tick w) = stopped w.
Proof.
  intros (Ht & Hsame & Hn & Hfresh & h & Hraf & Hh & Hpend) Hnz.
  unfold tick, confirmingStill, quietSince. rewrite Hraf.
  unfold exec, frame, bind, gets. rewrite Hpend.
  js_run ltac:(rewrite ?Ht, ?Hsame, ?Hn).
  destruct (Z.eqb_spec n 0) as [E|_]; [contradiction|]. cbn.
  repeat match goal with |- _ /\ _ => split end; try reflexivity; try assumption.
  - unfold freshFrames. cbn. intros h' f' Hin.
    apply in_app_or in Hin. destruct Hin as [Hin|[[= <- <-]|[]]].
    + apply In_cancelled in Hin. destruct Hin as [Hin _].
      specialize (Hfresh _ _ Hin). lia.
    + lia.
  - exists (nextFrame w). split; [reflexivity|]. split.
    + apply List.find_some in Hpend || idtac.
      assert (Hin : exists f, In (h, f) (frames w)).
      { unfold pendingFrame in Hpend.
        destruct (List.find (fun hf => Nat.eqb h (fst hf)) (frames w)) as [[h0 f0]|] eqn:Hf;
          [|discriminate].
        apply List.find_some in Hf. destruct Hf as [Hin Heq]. cbn in Heq.
        apply Nat.eqb_eq in Heq. subst h0. eauto. }
      destruct Hin as [f Hin]. specialize (Hfresh _ _ Hin). lia.
    + apply pendingFrame_fresh.
      intros h' f' Hin. apply In_cancelled in Hin. destruct Hin as [Hin _].
      specialize (Hfresh _ _ Hin). lia.
  - intros h' f' Hin Hne. cbn in Hne.
    apply in_app_or in Hin. destruct Hin as [Hin|[[= <- <-]|[]]].
    + apply In_cancelled in Hin. destruct Hin as [Hin Hh']. split; [exact Hin|].
      congruence.
    + congruence.
Qed.

Lemma confirm_tick_ends_loop (w : World) (t : Element) :
  confirmingStill w t 0 ->
  let w' := tick w in
  observers w' = observers w ++ [coarseWatcher w t]
  /\ intersectionObserver w' = Some (length (observers w))
  /\ stopped w' = true
  /\ reported w' = reported w
  /\ previousPositionInfo w' = previousPositionInfo w
  /\ (forall h f, In (h, f) (frames w') -> In (h, f) (frames w) /\ positionRAF w <> Some h)
  /\ tick w' = w'.
Proof.
  intros (Ht & Hsame & Hn & Hfresh & h & Hraf & Hh & Hpend) w'. subst w'.
  unfold tick. rewrite Hraf.
  unfold exec, frame, bind, gets. rewrite Hpend.
  assert (Hz : Nat.eqb h 0 = false) by (apply Nat.eqb_neq, Hh).
  assert (E : List.filter (fun hf : nat * FrameRequest => negb (h =? hf.1)%nat)
                (List.filter (fun hf : nat * FrameRequest => negb (h =? hf.1)%nat) (frames w))
              = List.filter (fun hf : nat * FrameRequest => negb (h =? hf.1)%nat) (frames w))
    by apply cancel_twice.
  js_run ltac:(rewrite ?Ht, ?Hsame, ?Hn, ?Hraf, ?Hz, ?E, ?pendingFrame_cancelled,
               ?alter_new_observer).
  repeat match goal with |- _ /\ _ => split end; try reflexivity.
  intros h' f' Hin. apply In_cancelled in Hin. destruct Hin as [Hin Hne].
  split; [exact Hin|congruence].
Qed.

Lemma confirm_ticks_count_down (t : Element) (k : nat) :
  forall w, confirmingStill w t (Z.of_nat k) ->
  forall j, (j <= k)%nat ->
    confirmingStill (ticks j w) t (Z.of_nat k - Z.of_nat j)
    /\ quietSince w (ticks j w).
Proof.
  induction k as [|k IH]; intros w Hp j Hj.
  - assert (j = 0%nat) as -> by lia. cbn. split; [exact Hp|apply quietSince_refl].
  - destruct j as [|j].
    + cbn [ticks]. rewrite Z.sub_0_r. split; [exact Hp|apply quietSince_refl].
    + destruct (confirm_tick_counts_down w t _ Hp ltac:(lia)) as (Hp' & Hq & _).
      replace (Z.of_nat (S k) - 1)%Z with (Z.of_nat k) in Hp' by lia.
      destruct (IH _ Hp' j ltac:(lia)) as [Hp'' Hq'].
      cbn [ticks]. split.
      * replace (Z.of_nat (S k) - Z.of_nat (S j))%Z with (Z.of_nat k - Z.of_nat j)%Z by lia.
        exact Hp''.
      * exact (quietSince_trans _ _ _ Hq Hq').
Qed.

(** X11. The stop-confirmation loop on a resting target: with [n] frames
    left on the counter, the next [n] ticks count it down to zero without a
    report, and the tick after them ends the loop.  That tick sets
    [stopped], reports nothing, keeps the cached sample, and calls
    [observe]: a coarse watcher is appended and made current while every
    earlier observer, the fine watcher included, is left as it was.  Later
    ticks do nothing. *)
Theorem stop_confirmation_converges (w : World) (t : Element) (n : Z) :
  confirmingStill w t n ->
  (0 <= n)%Z ->
  let k := Z.to_nat n in
  let wend := ticks (S k) w in
  (forall j, (j <= k)%nat ->
     confirmingStill (ticks j w) t (n - Z.of_nat j)
     /\ reported (ticks j w) = reported w)
  /\ stopped wend = true
  /\ reported wend = reported w
  /\ previousPositionInfo wend = previousPositionInfo w
  /\ observers wend = observers w ++ [coarseWatcher w t]
  /\ intersectionObserver wend = Some (length (observers w))
  /\ (forall j, ticks j wend = wend).
Proof.
  intros Hp Hn0 k wend.
  assert (Hk : n = Z.of_nat k) by (subst k; lia).
  rewrite Hk in Hp.
  pose proof (confirm_ticks_count_down t k w Hp) as Hdown.
  destruct (Hdown k (Nat.le_refl k)) as [Hlast Hquiet].
  rewrite Z.sub_diag in Hlast.
  destruct Hquiet as (Q1 & Q2 & Q3 & Q4 & Q5 & Q6 & Q7).
  destruct (confirm_tick_ends_loop _ _ Hlast) as (E1 & E2 & E3 & E4 & E5 & E6 & E7).
  subst wend. rewrite ticks_succ.
  repeat match goal with |- _ /\ _ => split end.
  - intros j Hj. destruct (Hdown j Hj) as [Hpj (Hr & _)].
    rewrite Hk. split; assumption.
  - exact E3.
  - congruence.
  - congruence.
  - rewrite E1, Q2. unfold coarseWatcher. rewrite Q4. reflexivity.
  - rewrite E2, Q2. reflexivity.
  - intros j. induction j as [|j IH]; [reflexivity|].
    cbn [ticks]. rewrite E7. exact IH.
Qed.

Lemma confirmingWorld_still : confirmingStill confirmingWorld someTarget 63.
Proof.
  unfold confirmingStill. repeat split; try (vm_compute; reflexivity).
  - apply freshFramesb_sound. vm_compute. reflexivity.
  - exists 2%nat. repeat split; try (vm_compute; reflexivity). discriminate.
Qed.

Lemma stop_confirmation_converges_witness :
  let wend := ticks 64 confirmingWorld in
  stopped wend = true
  /\ reported wend = reported confirmingWorld
  /\ observers wend
     = observers confirmingWorld ++ [coarseWatcher confirmingWorld someTarget].
Proof.
  intros wend.
  assert (Hn : (0 <= 63)%Z) by lia.
  destruct (stop_confirmation_converges confirmingWorld someTarget 63
              confirmingWorld_still Hn) as (_ & Hst & Hrep & _ & Hobs & _).
  split; [exact Hst|]. split; [exact Hrep|exact Hobs].
Defined.

(** ** How often a method reports *)

Lemma reportsAtMost_ret {A} (a : A) : reportsAtMost 0 (ret a).
Proof. intros w. exists []. split; [symmetry; apply app_nil_r|reflexivity]. Qed.

Lemma reportsAtMost_throw {A} : reportsAtMost 0 (@throw World A).
Proof. intros w. exists []. split; [symmetry; apply app_nil_r|reflexivity]. Qed.

Lemma reportsAtMost_gets {A} (f : World -> A) : reportsAtMost 0 (gets f).
Proof. intros w. exists []. split; [symmetry; apply app_nil_r|reflexivity]. Qed.

Lemma reportsAtMost_modify (f : World -> World) :
  (forall w, reported (f w) = reported w) -> reportsAtMost 0 (modify f).
Proof.
  intros Hf w. exists []. cbn. rewrite Hf. split; [symmetry; apply app_nil_r|reflexivity].
Qed.

Lemma reportsAtMost_bind {A B} (a b : nat) (m : Js World A) (k : A -> Js World B) :
  reportsAtMost a m -> (forall x, reportsAtMost b (k x)) ->
  reportsAtMost (a + b) (bind m k).
Proof.
  intros Hm Hk w. destruct (Hm w) as (l & E & Hl). unfold bind.
  destruct (m w) as [x w'|w']; cbn in E |- *.
  - destruct (Hk x w') as (l' & E' & Hl'). exists (l ++ l').
    rewrite E', E, <- app_assoc, length_app. split; [reflexivity|lia].
  - exists l. split; [exact E|lia].
Qed.

Lemma reportsAtMost_weaken {A} (a b : nat) (m : Js World A) :
  (a <= b)%nat -> reportsAtMost a m -> reportsAtMost b m.
Proof.
  intros Hab Hm w. destruct (Hm w) as (l & E & Hl). exists l. split; [exact E|lia].
Qed.

Lemma reportsAtMost_when (k : nat) (b : bool) (m : Js World unit) :
  reportsAtMost k m -> reportsAtMost k (when b m).
Proof.
  intros Hm. destruct b; [exact Hm|].
  apply (reportsAtMost_weaken 0); [lia|apply reportsAtMost_ret].
Qed.

Lemma reportsAtMost_quiet_then {A B} (k : nat) (m : Js World A) (f : A -> Js World B) :
  reportsAtMost 0 m -> (forall x, reportsAtMost k (f x)) -> reportsAtMost k (bind m f).
Proof. intros Hm Hf. exact (reportsAtMost_bind 0 k m f Hm Hf). Qed.

Lemma reportsAtMost_then_quiet {A B} (k : nat) (m : Js World A) (f : A -> Js World B) :
  reportsAtMost k m -> (forall x, reportsAtMost 0 (f x)) -> reportsAtMost k (bind m f).
Proof.
  intros Hm Hf. apply (reportsAtMost_weaken (k + 0)); [lia|].
  exact (reportsAtMost_bind k 0 m f Hm Hf).
Qed.

Lemma reportsAtMost_positionObserverCallback (data : PositionData.t) :
  reportsAtMost 1 (positionObserverCallback data).
Proof. intros w. exists [data]. split; reflexivity. Qed.

(** One step for a method that never reports. *)
Ltac quiet_go :=
  first
    [ apply reportsAtMost_ret
    | apply reportsAtMost_throw
    | apply reportsAtMost_gets
    | apply reportsAtMost_quiet_then; [|intros ?]
    | apply reportsAtMost_when
    | apply reportsAtMost_modify; intros ?; reflexivity
    | match goal with
      | |- reportsAtMost _ (match ?x with _ => _ end) => destruct x
      end ].

(** One step for a method that reports once on some of its paths. *)
Ltac once_go :=
  first
    [ apply reportsAtMost_positionObserverCallback
    | apply (reportsAtMost_weaken 0 1); [lia|]; solve [repeat quiet_go]
    | apply reportsAtMost_quiet_then; [solve [repeat quiet_go]|intros ?]
    | apply reportsAtMost_then_quiet; [|intros ?; solve [repeat quiet_go]]
    | apply reportsAtMost_when
    | match goal with
      | |- reportsAtMost _ (match ?x with _ => _ end) => destruct x
      end ].

Ltac once_method :=
  unfold viewportWindowDetectionCallback, finerWindowFrame, repeatedCheck,
    stopConfirmationCheck, finerWindowCallback, disconnect, observe,
    hasPositionChanged, updatePosition,
    getBoundingClientRect, cancelPositionRAF, cancelAnimationFrame,
    requestAnimationFrame, onIntersectionObserver, io_observe, io_unobserve,
    io_disconnect, newIntersectionObserver, firstEntry, asDOMRect, moveTo;
  cbv zeta; repeat once_go.

Lemma step_reportsAtMost (ev : Event) : reportsAtMost 1 (step ev).
Proof.
  destruct ev as [t| |io e|h|t r]; cbn [step].
  - once_method.
  - once_method.
  - unfold notify. apply reportsAtMost_quiet_then; [apply reportsAtMost_gets|intros obs].
    destruct (obs !! io) as [[[] ? ? ?]|];
      cbn [runHandler IntersectionObserver.callback]; once_method.
  - unfold frame. apply reportsAtMost_quiet_then; [apply reportsAtMost_gets|intros fs].
    destruct (pendingFrame h fs) as [[| |entry]|]; cbn [runFrame]; once_method.
  - once_method.
Qed.

(** X12. The report log of version-2 only grows, and by at most one call per
    event: whatever the host, the page or the caller does next -- a call of
    [observe] or [disconnect], a delivered batch, a frame, a move of an
    element -- the calls logged so far stay as they are and at most one call
    of the reporting callback is added.  So a run of [n] events adds at most
    [n] reports. *)
Theorem report_log_grows_by_at_most_one :
  (forall ev w, exists l,
      reported (exec (step ev) w) = reported w ++ l /\ (length l <= 1)%nat)
  /\ (forall evs w, exists l,
      reported (run evs w) = reported w ++ l /\ (length l <= length evs)%nat).
Proof.
  split.
  - intros ev w. exact (step_reportsAtMost ev w).
  - induction evs as [|ev evs IH]; intros w; cbn [run].
    + exists []. split; [symmetry; apply app_nil_r|reflexivity].
    + destruct (step_reportsAtMost ev w) as (l & E & Hl).
      destruct (IH (exec (step ev) w)) as (l' & E' & Hl').
      exists (l ++ l'). unfold exec in *.
      rewrite E', E, <- app_assoc, length_app. cbn [length]. split; [reflexivity|lia].
Qed.

(** ** The target is set before the host can call back *)

Ltac target_go :=
  first
    [ apply preserves_ret
    | apply preserves_throw
    | apply preserves_gets
    | apply preserves_bind; [|intros ?]
    | apply preserves_when
    | apply preserves_modify; intros ? ?; first [assumption|discriminate]
    | match goal with
      | |- preserves _ (match ?x with _ => _ end) => destruct x
      end ].

Ltac target_method :=
  unfold viewportWindowDetectionCallback, finerWindowFrame, repeatedCheck,
    stopConfirmationCheck, finerWindowCallback, disconnect, observe,
    hasPositionChanged, updatePosition, positionObserverCallback,
    getBoundingClientRect, cancelPositionRAF, cancelAnimationFrame,
    requestAnimationFrame, onIntersectionObserver, io_observe, io_unobserve,
    io_disconnect, newIntersectionObserver, firstEntry, asDOMRect, moveTo;
  cbv zeta; repeat target_go.

Lemma step_keeps_target (ev : Event) :
  preserves (fun w => target w <> None) (step ev).
Proof.
  destruct ev as [t| |io e|h|t r]; cbn [step].
  - target_method.
  - target_method.
  - unfold notify. apply preserves_bind; [apply preserves_gets|intros obs].
    destruct (obs !! io) as [[[] ? ? ?]|];
      cbn [runHandler IntersectionObserver.callback]; target_method.
  - unfold frame. apply preserves_bind; [apply preserves_gets|intros fs].
    destruct (pendingFrame h fs) as [[| |entry]|]; cbn [runFrame]; target_method.
  - target_method.
Qed.

Lemma step_keeps_armed (ev : Event) : preserves armed (step ev).
Proof.
  intros w [Ht|[Hobs Hfr]].
  - left. exact (step_keeps_target ev w Ht).
  - destruct ev as [t| |io e|h|t r]; cbn [step].
    + left. cbn. discriminate.
    + right. unfold disconnect, onIntersectionObserver, bind, gets.
      destruct (intersectionObserver w) as [io|]; cbn; rewrite ?Hobs; split;
        first [reflexivity|assumption].
    + right. unfold notify, bind, gets. rewrite Hobs. cbn. split; assumption.
    + right. unfold frame, bind, gets. rewrite Hfr. cbn. split; assumption.
    + right. cbn. split; assumption.
Qed.

(** X13. In every world reached from a new instance, the target is set as
    soon as the host holds an observer or a frame request of the instance:
    [observe] is the only way to create either, and nothing ever unsets the
    target.  So when the host runs a callback or a frame, [this.target] is
    there, and the "no target" branch of the two frame loops is never
    taken. *)
Theorem target_set_before_any_callback (evs : list Event) (thresholdFraction : nat)
    (page : Element -> DOMRect.t) (vv : VisualViewport.t) :
  let w := run evs (construct thresholdFraction page vv) in
  (forall io o, observers w !! io = Some o -> exists t, target w = Some t)
  /\ (forall h f, In (h, f) (frames w) -> exists t, target w = Some t).
Proof.
  intros w.
  assert (H : armed w).
  { subst w.
    assert (H : armed (construct thresholdFraction page vv))
      by (right; split; reflexivity).
    revert H. generalize (construct thresholdFraction page vv).
    induction evs as [|ev evs IH]; intros w H; cbn [run]; [exact H|].
    apply IH. exact (step_keeps_armed ev w H). }
  assert (Hset : target w <> None -> exists t, target w = Some t).
  { destruct (target w) as [t|]; [eauto|congruence]. }
  split.
  - intros io o Hio. destruct H as [Ht|[Hobs _]]; [exact (Hset Ht)|].
    rewrite Hobs in Hio. discriminate.
  - intros h f Hin. destruct H as [Ht|[_ Hfr]]; [exact (Hset Ht)|].
    rewrite Hfr in Hin. destruct Hin.
Qed.

(** ** A tick of the stop-confirmation loop that finds the target moved *)

(** X14. A tick of [stopConfirmationCheck] that finds the bounds changed
    records them, reports once -- with the target's own rectangle as
    [rootBounds] and [outOfViewport] false -- and starts the wait over with
    [Math.ceil(stopWaitTime / 16)] frames: the loop is again waiting on a
    resting target, whatever was left on the counter.  It neither sets
    [stopped] nor touches an observer. *)
Theorem moved_tick_restarts_stop_confirmation (w : World) (t : Element) (h : nat) :
  target w = Some t ->
  positionChanged (previousPositionInfo w) (layout w t) = true ->
  freshFrames w ->
  positionRAF w = Some h ->
  pendingFrame h (frames w) = Some StopConfirmationCheck ->
  confirmingStill (tick w) t (framesToWait (stopWaitTime w))
  /\ reported (tick w)
     = reported w ++
       [{| PositionData.x := DOMRect.left (layout w t);
           PositionData.y := DOMRect.top (layout w t);
           PositionData.target := t;
           PositionData.outOfViewport := false;
           PositionData.rootBounds := Some (layout w t) |}]
  /\ previousPositionInfo (tick w) = Some (sampleOf (layout w t))
  /\ stopped (tick w) = stopped w
  /\ observers (tick w) = observers w
  /\ intersectionObserver (tick w) = intersectionObserver w.
Proof.
  intros Ht Hch Hfresh Hraf Hpend.
  assert (Hlt : (h < nextFrame w)%nat).
  { unfold pendingFrame in Hpend.
    destruct (List.find (fun hf => Nat.eqb h (fst hf)) (frames w)) as [[h0 f0]|] eqn:Hf;
      [|discriminate].
    apply List.find_some in Hf. destruct Hf as [Hin Heq]. cbn in Heq.
    apply Nat.eqb_eq in Heq. subst h0. exact (Hfresh _ _ Hin). }
  unfold tick, confirmingStill. rewrite Hraf.
  unfold exec, frame, bind, gets. rewrite Hpend.
  js_run ltac:(rewrite ?Ht, ?Hch).
  repeat match goal with |- _ /\ _ => split end; try reflexivity.
  - unfold positionChanged, sampleOf. cbn. rewrite !Qneqb_refl. reflexivity.
  - unfold freshFrames. cbn. intros h' f' Hin.
    apply in_app_or in Hin. destruct Hin as [Hin|[[= <- <-]|[]]].
    + apply In_cancelled in Hin. destruct Hin as [Hin _].
      specialize (Hfresh _ _ Hin). lia.
    + lia.
  - exists (nextFrame w). split; [reflexivity|]. split; [lia|].
    apply pendingFrame_fresh.
    intros h' f' Hin. apply In_cancelled in Hin. destruct Hin as [Hin _].
    specialize (Hfresh _ _ Hin). lia.
Qed.

Lemma moved_tick_restarts_stop_confirmation_witness :
  let w := exec (moveTo someTarget moved) confirmingWorld in
  confirmingStill (tick w) someTarget 63
  /\ reported (tick w)
     = reported w ++
       [{| PositionData.x := DOMRect.left moved;
           PositionData.y := DOMRect.top moved;
           PositionData.target := someTarget;
           PositionData.outOfViewport := false;
           PositionData.rootBounds := Some moved |}].
Proof.
  intros w.
  assert (Ht : target w = Some someTarget) by (vm_compute; reflexivity).
  assert (Hch : positionChanged (previousPositionInfo w) (layout w someTarget) = true)
    by (vm_compute; reflexivity).
  assert (Hfresh : freshFrames w) by (apply freshFramesb_sound; vm_compute; reflexivity).
  assert (Hraf : positionRAF w = Some 2%nat) by (vm_compute; reflexivity).
  assert (Hpend : pendingFrame 2 (frames w) = Some StopConfirmationCheck)
    by (vm_compute; reflexivity).
  destruct (moved_tick_restarts_stop_confirmation w someTarget 2 Ht Hch Hfresh Hraf Hpend)
    as (Hstill & Hrep & _).
  split; [exact Hstill|exact Hrep].
Defined.

(** ** Where version-2 throws *)

Lemma neverThrows_ret {W A} (a : A) : neverThrows (@ret W A a).
Proof. intros w. reflexivity. Qed.

Lemma neverThrows_gets {W A} (f : W -> A) : neverThrows (gets f).
Proof. intros w. reflexivity. Qed.

Lemma neverThrows_modify {W} (f : W -> W) : neverThrows (modify f).
Proof. intros w. reflexivity. Qed.

Lemma neverThrows_bind {W A B} (m : Js W A) (k : A -> Js W B) :
  neverThrows m -> (forall a, neverThrows (k a)) -> neverThrows (bind m k).
Proof.
  intros Hm Hk w. specialize (Hm w). unfold throws, bind in *.
  destruct (m w) as [a w'|w']; [apply Hk|discriminate].
Qed.

Lemma neverThrows_when {W} (b : bool) (m : Js W unit) :
  neverThrows m -> neverThrows (when b m).
Proof. intros Hm. destruct b; [exact Hm|apply neverThrows_ret]. Qed.

Ltac calm_go :=
  first
    [ apply neverThrows_ret
    | apply neverThrows_gets
    | apply neverThrows_modify
    | apply neverThrows_bind; [|intros ?]
    | apply neverThrows_when
    | match goal with
      | |- neverThrows (match ?x with _ => _ end) => destruct x
      end ].

Ltac calm_method :=
  unfold finerWindowFrame, repeatedCheck,
    stopConfirmationCheck, disconnect, observe,
    hasPositionChanged, updatePosition, positionObserverCallback,
    getBoundingClientRect, cancelPositionRAF, cancelAnimationFrame,
    requestAnimationFrame, onIntersectionObserver, io_observe, io_unobserve,
    io_disconnect, newIntersectionObserver, moveTo;
  cbv zeta; repeat calm_go.

Lemma neverThrows_observe (t : Element) : neverThrows (observe t).
Proof. calm_method. Qed.

Lemma neverThrows_disconnect : neverThrows disconnect.
Proof. calm_method. Qed.

Lemma neverThrows_frame (h : nat) : neverThrows (frame h).
Proof.
  unfold frame. apply neverThrows_bind; [apply neverThrows_gets|intros fs].
  destruct (pendingFrame h fs) as [[| |entry]|]; cbn [runFrame]; calm_method.
Qed.

Lemma neverThrows_moveTo (t : Element) (r : DOMRect.t) : neverThrows (moveTo t r).
Proof. calm_method. Qed.

(** X15. Version-2 throws in two places only, both in a watcher callback
    that the host calls for an existing observer: reading [e[0]] of an
    empty batch, and, in the coarse callback with a positive ratio, reading
    the root bounds when the entry has none.  [observe], [disconnect], every
    frame request and every other notification run to their end. *)
Theorem step_throws_only_on_empty_batch_or_missing_root (ev : Event) (w : World) :
  throws (step ev) w = true
  <-> exists io e o,
        ev = Notify io e
        /\ observers w !! io = Some o
        /\ (e = []
            \/ (IntersectionObserver.callback o = ViewportWindowDetectionCallback
                /\ exists entry rest,
                     e = entry :: rest
                     /\ Entry.rootBounds entry = None
                     /\ 0 < Entry.intersectionRatio entry)).
Proof.
  split.
  - intros Hthrow. destruct ev as [t| |io e|h|t r]; cbn [step] in Hthrow.
    + rewrite neverThrows_observe in Hthrow. discriminate.
    + rewrite neverThrows_disconnect in Hthrow. discriminate.
    + exists io, e. unfold throws, notify, bind, gets in Hthrow.
      destruct (observers w !! io) as [o|] eqn:Hio; [|discriminate].
      exists o. split; [reflexivity|]. split; [reflexivity|].
      destruct e as [|entry rest]; [left; reflexivity|right].
      destruct o as [[] th rm ts]; cbn [runHandler IntersectionObserver.callback] in *.
      * split; [reflexivity|]. exists entry, rest. split; [reflexivity|].
        unfold viewportWindowDetectionCallback, firstEntry in Hthrow.
        cbn [bind ret] in Hthrow. unfold bind at 1, ret in Hthrow.
        destruct (Qltb 0 (Entry.intersectionRatio entry)) eqn:Hr.
        -- split; [|apply Qltb_lt, Hr].
           destruct (Entry.rootBounds entry) as [rb|] eqn:Hrb; [|reflexivity].
           exfalso. revert Hthrow.
           change (throws
                     (onIntersectionObserver (fun io => io_unobserve io (Entry.target entry)) ;;
                      onIntersectionObserver io_disconnect ;;
                      rootBounds <- asDOMRect (Some rb) ;;
                      vv <- gets visualViewport ;;
                      io <- newIntersectionObserver FinerWindowCallback
                              (getMargins vv
                                 (constructBoxWindow (Entry.intersectionRect entry) rootBounds)
                                 (Some rb)) ;;
                      modify (set_intersectionObserver (Some io)) ;;
                      onIntersectionObserver (fun io => io_observe io (Entry.target entry)))
                     w = true -> False).
           assert (Hcalm : neverThrows
                     (onIntersectionObserver (fun io => io_unobserve io (Entry.target entry)) ;;
                      onIntersectionObserver io_disconnect ;;
                      rootBounds <- asDOMRect (Some rb) ;;
                      vv <- gets visualViewport ;;
                      io <- newIntersectionObserver FinerWindowCallback
                              (getMargins vv
                                 (constructBoxWindow (Entry.intersectionRect entry) rootBounds)
                                 (Some rb)) ;;
                      modify (set_intersectionObserver (Some io)) ;;
                      onIntersectionObserver (fun io => io_observe io (Entry.target entry))))
             by (unfold asDOMRect; calm_method).
           rewrite Hcalm. discriminate.
        -- exfalso. revert Hthrow. cbn. discriminate.
      * exfalso. revert Hthrow. cbn. discriminate.
    + rewrite neverThrows_frame in Hthrow. discriminate.
    + rewrite neverThrows_moveTo in Hthrow. discriminate.
  - intros (io & e & o & -> & Hio & Hcase). cbn [step].
    unfold throws, notify, bind, gets. rewrite Hio.
    destruct Hcase as [->|(Hcb & entry & rest & -> & Hrb & Hpos)].
    + destruct o as [[] th rm ts]; reflexivity.
    + rewrite Hcb. cbn [runHandler].
      apply Qltb_lt in Hpos.
      destruct (intersectionObserver w) as [cur|] eqn:Hcur;
        js_run ltac:(rewrite ?Hpos, ?Hrb, ?Hcur); reflexivity.
Qed.

(** ** The window the margins cut out of the root *)



(** * The two-observer variant *)

Section TwoIo.

Import TwoIoDifferingIr.

Ltac two_io_unfold :=
  unfold exec, throws, viewportWindowDetectionCallback,
    finerWindowDetectionCallback, backupViewportCallback,
    setupIntersectionObserverFromStart, reportPosition, observe,
    theIntersectionObserver, onIntersectionObserver, io_observe, io_unobserve,
    io_disconnect, newIntersectionObserver, firstEntry, asDOMRect,
    when, bind, gets, modify, ret;
  cbv zeta.

Ltac two_io_run rw := repeat (progress (two_io_unfold; cbn; rw)).

(** X17. A coarse notification whose first entry has no positive ratio
    dispatches exactly one [movement-observed] event, on the target the
    instance holds, with [outOfViewport] true, and caches the ratio and the
    visibility; the observers stay as they are and the coarse watcher stays
    current. *)
Theorem two_io_coarse_outside_dispatches_once (w : World) (t : Element)
    (entry : Entry.t) (rest : list Entry.t) :
  target w = Some t ->
  ~ 0 < Entry.intersectionRatio entry ->
  viewportWindowDetectionCallback (entry :: rest) w
  = Returned tt
      (set_viewportIR (Some (Entry.intersectionRatio entry))
         (set_dispatched
            (dispatched w ++ [MovementObserved.mk t (Entry.rootBounds entry) true])
            (set_viewportVisible (Some false) w))).
Proof.
  intros Ht Hout.
  assert (Hr : Qltb 0 (Entry.intersectionRatio entry) = false)
    by (apply Qltb_ge, Qnot_lt_le, Hout).
  two_io_run ltac:(rewrite ?Ht, ?Hr). reflexivity.
Qed.

Lemma two_io_coarse_outside_dispatches_once_witness :
  dispatched (exec (viewportWindowDetectionCallback [outsideViewport]) twoIoCoarseWorld)
  = [MovementObserved.mk someTarget (Some wideViewport) true].
Proof.
  assert (Ht : target twoIoCoarseWorld = Some someTarget) by (vm_compute; reflexivity).
  assert (Hout : ~ 0 < Entry.intersectionRatio outsideViewport)
    by (vm_compute; discriminate).
  unfold exec.
  rewrite (two_io_coarse_outside_dispatches_once twoIoCoarseWorld someTarget
             outsideViewport [] Ht Hout).
  vm_compute. reflexivity.
Defined.

(** X18. A coarse notification with a positive ratio and root bounds
    dispatches one event with [outOfViewport] false, caches the ratio, and
    swaps watchers: the current one is left without a target, and a fine
    watcher is created, made current and subscribed to the entry's target.
    Its margins are computed from the intersection rectangle itself: this
    variant builds no fitted window. *)
Theorem two_io_coarse_inside_installs_fine_watcher (w : World) (t : Element)
    (io : nat) (o : IntersectionObserver.t) (entry : Entry.t)
    (rest : list Entry.t) (rb : DOMRect.t) :
  target w = Some t ->
  intersectionObserver w = Some io ->
  observers w !! io = Some o ->
  0 < Entry.intersectionRatio entry ->
  Entry.rootBounds entry = Some rb ->
  let w2 := exec (viewportWindowDetectionCallback (entry :: rest)) w in
  let fine := length (observers w) in
  throws (viewportWindowDetectionCallback (entry :: rest)) w = false
  /\ dispatched w2 = dispatched w ++ [MovementObserved.mk t (Some rb) false]
  /\ viewportIR w2 = Some (Entry.intersectionRatio entry)
  /\ viewportVisible w2 = Some true
  /\ target w2 = Some t
  /\ (exists o', observers w2 !! io = Some o' /\ IntersectionObserver.targets o' = [])
  /\ intersectionObserver w2 = Some fine
  /\ observers w2 !! fine
     = Some (IntersectionObserver.mk FinerWindowDetectionCallback (thresholdList w)
               (getMargins (BoxWindow.ofRect (Entry.intersectionRect entry)) rb)
               true [Entry.target entry]).
Proof.
  intros Ht Hcur Hio Hpos Hrb w2 fine. subst w2 fine.
  apply Qltb_lt in Hpos.
  two_io_run ltac:(rewrite ?Ht, ?Hpos, ?Hrb, ?Hcur).
  rewrite ?length_alter.
  repeat match goal with |- _ /\ _ => split end; try reflexivity.
  - eexists. split;
      [ rewrite list_lookup_alter_ne, lookup_app_l
          by (rewrite ?length_alter; apply lookup_lt_Some in Hio; lia);
        apply alter_alter_lookup, Hio
      | reflexivity ].
  - rewrite lookup_new_observer by (rewrite ?length_alter; reflexivity).
    reflexivity.
Qed.

Lemma two_io_coarse_inside_installs_fine_watcher_witness :
  let w2 := exec (viewportWindowDetectionCallback [enteredViewport]) twoIoCoarseWorld in
  dispatched w2 = [MovementObserved.mk someTarget (Some wideViewport) false]
  /\ intersectionObserver w2 = Some 2%nat.
Proof.
  intros w2.
  assert (Ht : target twoIoCoarseWorld = Some someTarget) by (vm_compute; reflexivity).
  assert (Hcur : intersectionObserver twoIoCoarseWorld = Some 1%nat)
    by (vm_compute; reflexivity).
  assert (Hio : observers twoIoCoarseWorld !! 1%nat
                = Some (IntersectionObserver.mk ViewportWindowDetectionCallback
                          (thresholds 4) Margins.zero true [someTarget]))
    by (vm_compute; reflexivity).
  assert (Hpos : 0 < Entry.intersectionRatio enteredViewport) by (vm_compute; reflexivity).
  assert (Hrb : Entry.rootBounds enteredViewport = Some wideViewport) by reflexivity.
  destruct (two_io_coarse_inside_installs_fine_watcher twoIoCoarseWorld someTarget 1 _
              enteredViewport [] wideViewport Ht Hcur Hio Hpos Hrb)
    as (_ & Hd & _ & _ & _ & _ & Hnew & _).
  split; [exact Hd|exact Hnew].
Defined.

(** X19. A fine notification whose ratio is the cached one only dispatches:
    one event on the held target, carrying the visibility flag cached by the
    last coarse notification; no observer, ratio or flag changes. *)
Theorem two_io_fine_same_ratio_only_dispatches (w : World) (t : Element) (v : Q)
    (entry : Entry.t) (rest : list Entry.t) :
  target w = Some t ->
  viewportIR w = Some v ->
  v == Entry.intersectionRatio entry ->
  finerWindowDetectionCallback (entry :: rest) w
  = Returned tt
      (set_dispatched
         (dispatched w ++
          [MovementObserved.mk t (Entry.rootBounds entry) (notVisible (viewportVisible w))])
         w).
Proof.
  intros Ht Hv Hsame.
  apply Qneqb_false in Hsame.
  two_io_run ltac:(rewrite ?Ht, ?Hv, ?Hsame). reflexivity.
Qed.

Lemma two_io_fine_same_ratio_only_dispatches_witness :
  finerWindowDetectionCallback [enteredViewport] twoIoFineWorld
  = Returned tt
      (set_dispatched
         (dispatched twoIoFineWorld ++
          [MovementObserved.mk someTarget (Some wideViewport) false])
         twoIoFineWorld).
Proof.
  assert (Ht : target twoIoFineWorld = Some someTarget) by (vm_compute; reflexivity).
  assert (Hv : viewportIR twoIoFineWorld = Some 1) by (vm_compute; reflexivity).
  assert (Hsame : 1 == Entry.intersectionRatio enteredViewport) by (vm_compute; reflexivity).
  exact (two_io_fine_same_ratio_only_dispatches twoIoFineWorld someTarget 1
           enteredViewport [] Ht Hv Hsame).
Defined.

(** X20. A fine notification whose ratio differs from the cached one
    dispatches one event with the cached visibility flag and starts over:
    the fine watcher is disconnected, and a coarse watcher (viewport
    callback, zero margins, the document as root) is created, made current
    and subscribed to the entry's target, which becomes the held target.
    The cached ratio is not touched. *)
Theorem two_io_fine_other_ratio_restarts_coarse (w : World) (t : Element)
    (io : nat) (o : IntersectionObserver.t) (entry : Entry.t) (rest : list Entry.t) :
  target w = Some t ->
  intersectionObserver w = Some io ->
  observers w !! io = Some o ->
  (forall v, viewportIR w = Some v -> ~ v == Entry.intersectionRatio entry) ->
  let w2 := exec (finerWindowDetectionCallback (entry :: rest)) w in
  let coarse := length (observers w) in
  throws (finerWindowDetectionCallback (entry :: rest)) w = false
  /\ dispatched w2
     = dispatched w ++
       [MovementObserved.mk t (Entry.rootBounds entry) (notVisible (viewportVisible w))]
  /\ observers w2 !! io = Some (setTargets (fun _ => []) o)
  /\ intersectionObserver w2 = Some coarse
  /\ observers w2 !! coarse
     = Some (IntersectionObserver.mk ViewportWindowDetectionCallback (thresholdList w)
               Margins.zero true [Entry.target entry])
  /\ target w2 = Some (Entry.target entry)
  /\ viewportIR w2 = viewportIR w
  /\ viewportVisible w2 = viewportVisible w.
Proof.
  intros Ht Hcur Hio Hdiff w2 coarse. subst w2 coarse.
  assert (Hd : match viewportIR w with
               | Some v => Qneqb v (Entry.intersectionRatio entry)
               | None => true
               end = true).
  { destruct (viewportIR w) as [v|]; [|reflexivity].
    destruct (Qneqb v (Entry.intersectionRatio entry)) eqn:E; [reflexivity|].
    apply Qneqb_false in E. exfalso. exact (Hdiff v eq_refl E). }
  two_io_run ltac:(rewrite ?Ht, ?Hd, ?Hcur).
  rewrite ?length_alter.
  repeat match goal with |- _ /\ _ => split end; try reflexivity.
  - rewrite list_lookup_alter_ne, lookup_app_l
      by (rewrite ?length_alter; apply lookup_lt_Some in Hio; lia).
    rewrite list_lookup_alter_eq, Hio. reflexivity.
  - rewrite lookup_new_observer by (rewrite ?length_alter; reflexivity).
    reflexivity.
Qed.

Lemma two_io_fine_other_ratio_restarts_coarse_witness :
  let w2 := exec (finerWindowDetectionCallback [startedMoving]) twoIoFineWorld in
  dispatched w2
  = dispatched twoIoFineWorld ++ [MovementObserved.mk someTarget (Some fittedRoot) false]
  /\ intersectionObserver w2 = Some 3%nat.
Proof.
  intros w2.
  assert (Ht : target twoIoFineWorld = Some someTarget) by (vm_compute; reflexivity).
  assert (Hcur : intersectionObserver twoIoFineWorld = Some 2%nat)
    by (vm_compute; reflexivity).
  assert (Hio : observers twoIoFineWorld !! 2%nat
                = Some (IntersectionObserver.mk FinerWindowDetectionCallback
                          (thresholds 4) (Margins.mk (-99) (-879) (-679) (-99)) true
                          [someTarget]))
    by (vm_compute; reflexivity).
  assert (Hdiff : forall v, viewportIR twoIoFineWorld = Some v ->
                            ~ v == Entry.intersectionRatio startedMoving).
  { intros v Hv. assert (E : viewportIR twoIoFineWorld = Some 1) by (vm_compute; reflexivity).
    rewrite E in Hv. injection Hv as <-. vm_compute. discriminate. }
  destruct (two_io_fine_other_ratio_restarts_coarse twoIoFineWorld someTarget 2 _
              startedMoving [] Ht Hcur Hio Hdiff)
    as (_ & Hd & _ & Hnew & _).
  split; [exact Hd|exact Hnew].
Defined.

(** X21. The backup watcher's callback never dispatches and never throws on
    a non-empty batch.  It leaves the current watcher, if there is one,
    without a target, creates a coarse watcher, makes it current and
    subscribes it to the entry's target; every other observer, the backup
    watcher included, is left as it was, so that the backup watcher keeps
    firing next to the watchers it starts. *)
Theorem two_io_backup_restarts_coarse (w : World) (entry : Entry.t)
    (rest : list Entry.t) :
  let w2 := exec (backupViewportCallback (entry :: rest)) w in
  let coarse := length (observers w) in
  throws (backupViewportCallback (entry :: rest)) w = false
  /\ dispatched w2 = dispatched w
  /\ intersectionObserver w2 = Some coarse
  /\ observers w2 !! coarse
     = Some (IntersectionObserver.mk ViewportWindowDetectionCallback (thresholdList w)
               Margins.zero true [Entry.target entry])
  /\ target w2 = Some (Entry.target entry)
  /\ backupViewportIntersectionObserver w2 = backupViewportIntersectionObserver w
  /\ viewportIR w2 = viewportIR w
  /\ (forall i o, observers w !! i = Some o ->
        observers w2 !! i
        = Some (if decide (intersectionObserver w = Some i)
                then setTargets (fun _ => []) o else o)).
Proof.
  intros w2 coarse. subst w2 coarse.
  destruct (intersectionObserver w) as [cur|] eqn:Hcur;
    two_io_run ltac:(rewrite ?Hcur);
    rewrite ?length_alter;
    repeat match goal with |- _ /\ _ => split end; try reflexivity.
  - rewrite lookup_new_observer by (rewrite ?length_alter; reflexivity).
    reflexivity.
  - intros i o Hi.
    rewrite list_lookup_alter_ne, lookup_app_l
      by (rewrite ?length_alter; apply lookup_lt_Some in Hi; lia).
    destruct (decide (Some cur = Some i)) as [[= <-]|Hne].
    + rewrite (alter_alter_lookup _ _ _ _ _ Hi). reflexivity.
    + rewrite !list_lookup_alter_ne by congruence. exact Hi.
  - rewrite lookup_new_observer by reflexivity. reflexivity.
  - intros i o Hi.
    rewrite list_lookup_alter_ne, lookup_app_l
      by (apply lookup_lt_Some in Hi; lia).
    destruct (decide (None = Some i)) as [E|_]; [discriminate|exact Hi].
Qed.

(** ** Where the two-observer variant throws *)

Lemma two_io_allBackup_observe (w : World) (t : Element) :
  allBackup w -> allBackup (exec (observe t) w).
Proof.
  intros Hall i o. two_io_run idtac.
  rewrite alter_new_observer. intros Hi.
  destruct (Nat.lt_ge_cases i (length (observers w))) as [Hlt|Hge].
  - rewrite lookup_app_l in Hi by exact Hlt. exact (Hall i o Hi).
  - rewrite lookup_app_r in Hi by exact Hge.
    destruct (i - length (observers w))%nat as [|k]; cbn in Hi; [|discriminate].
    injection Hi as <-. reflexivity.
Qed.

Lemma two_io_step_wired (ev : Event) (w : World) :
  wired w -> wired (exec (step ev) w).
Proof.
  intros Hw. destruct ev as [t|io e]; cbn [step].
  - destruct Hw as [Hcur|Hall].
    + left. two_io_run idtac. exact Hcur.
    + right. apply two_io_allBackup_observe, Hall.
  - unfold exec, notify, bind, gets.
    destruct (observers w !! io) as [o|] eqn:Hio; [|exact Hw].
    destruct (IntersectionObserver.callback o) eqn:Hcb; cbn [runHandler].
    + destruct e as [|entry rest]; [exact Hw|]. left.
      destruct (intersectionObserver w) as [cur|] eqn:Hcur;
        two_io_run ltac:(rewrite ?Hcur); discriminate.
    + assert (Hcur : intersectionObserver w <> None).
      { destruct Hw as [Hcur|Hall]; [exact Hcur|].
        rewrite (Hall io o Hio) in Hcb. discriminate. }
      left. destruct e as [|entry rest]; [exact Hcur|].
      destruct (intersectionObserver w) as [cur|] eqn:Ecur; [clear Hcur|congruence].
      destruct (target w) as [t|] eqn:Ht;
        destruct (Qltb 0 (Entry.intersectionRatio entry)) eqn:Hr;
        destruct (Entry.rootBounds entry) as [rb|] eqn:Hrb;
        two_io_run ltac:(rewrite ?Ht, ?Hr, ?Hrb, ?Ecur); congruence.
    + assert (Hcur : intersectionObserver w <> None).
      { destruct Hw as [Hcur|Hall]; [exact Hcur|].
        rewrite (Hall io o Hio) in Hcb. discriminate. }
      left. destruct e as [|entry rest]; [exact Hcur|].
      destruct (intersectionObserver w) as [cur|] eqn:Ecur; [clear Hcur|congruence].
      destruct (target w) as [t|] eqn:Ht;
        destruct (match viewportIR w with
                  | Some v => Qneqb v (Entry.intersectionRatio entry)
                  | None => true
                  end) eqn:Hd;
        two_io_run ltac:(rewrite ?Ht, ?Hd, ?Ecur); congruence.
Qed.

Lemma two_io_reachable_wired (evs : list Event) (thresholdFraction : nat) :
  wired (run evs (construct thresholdFraction)).
Proof.
  assert (H : wired (construct thresholdFraction)).
  { right. intros i o Hi. discriminate. }
  revert H. generalize (construct thresholdFraction).
  induction evs as [|ev evs IH]; intros w H; cbn [run]; [exact H|].
  apply IH, two_io_step_wired, H.
Qed.

(** X22. In every world reached from a new instance, a notification makes
    the two-observer variant throw in two cases only: the batch is empty,
    or the coarse callback gets a positive ratio without root bounds.  The
    calls on [this.intersectionObserver] that are written without [?.] never
    throw: when a coarse or fine watcher exists, the field is set. *)
Theorem two_io_throws_only_on_empty_batch_or_missing_root (evs : list Event)
    (thresholdFraction : nat) (io : nat) (e : list Entry.t) :
  let w := run evs (construct thresholdFraction) in
  throws (notify io e) w = true ->
  e = []
  \/ exists o entry rest,
       observers w !! io = Some o
       /\ IntersectionObserver.callback o = ViewportWindowDetectionCallback
       /\ e = entry :: rest
       /\ Entry.rootBounds entry = None
       /\ 0 < Entry.intersectionRatio entry.
Proof.
  intros w Hthrow.
  pose proof (two_io_reachable_wired evs thresholdFraction) as Hw.
  fold w in Hw. clearbody w.
  destruct e as [|entry rest]; [left; reflexivity|right].
  unfold throws, notify, bind, gets in Hthrow.
  destruct (observers w !! io) as [o|] eqn:Hio; [|discriminate].
  exists o, entry, rest. split; [reflexivity|].
  destruct (IntersectionObserver.callback o) eqn:Hcb; cbn [runHandler] in Hthrow.
  - exfalso. revert Hthrow.
    destruct (intersectionObserver w) as [cur|] eqn:Hcur;
      two_io_run ltac:(rewrite ?Hcur); discriminate.
  - split; [reflexivity|]. split; [reflexivity|].
    assert (Hcur : intersectionObserver w <> None).
    { destruct Hw as [Hcur|Hall]; [exact Hcur|].
      rewrite (Hall io o Hio) in Hcb. discriminate. }
    destruct (intersectionObserver w) as [cur|] eqn:Ecur; [clear Hcur|congruence].
    destruct (Qltb 0 (Entry.intersectionRatio entry)) eqn:Hr.
    + split; [|apply Qltb_lt, Hr].
      destruct (Entry.rootBounds entry) as [rb|] eqn:Hrb; [|reflexivity].
      exfalso. revert Hthrow.
      destruct (target w) as [t|] eqn:Ht;
        two_io_run ltac:(rewrite ?Ht, ?Hr, ?Hrb, ?Ecur); discriminate.
    + exfalso. revert Hthrow.
      destruct (target w) as [t|] eqn:Ht;
        two_io_run ltac:(rewrite ?Ht, ?Hr, ?Ecur); discriminate.
  - exfalso.
    assert (Hcur : intersectionObserver w <> None).
    { destruct Hw as [Hcur|Hall]; [exact Hcur|].
      rewrite (Hall io o Hio) in Hcb. discriminate. }
    destruct (intersectionObserver w) as [cur|] eqn:Ecur; [clear Hcur|congruence].
    revert Hthrow.
    destruct (target w) as [t|] eqn:Ht;
      destruct (match viewportIR w with
                | Some v => Qneqb v (Entry.intersectionRatio entry)
                | None => true
                end) eqn:Hd;
      two_io_run ltac:(rewrite ?Ht, ?Hd, ?Ecur); discriminate.
Qed.

Lemma two_io_throws_only_on_empty_batch_or_missing_root_witness :
  let entry := Entry.mk someTarget atRest atRest None 1 in
  let w := run [Observe someTarget; Notify 0%nat [enteredViewport]] (construct 4) in
  [entry] = []
  \/ exists o entry' rest,
       observers w !! 1%nat = Some o
       /\ IntersectionObserver.callback o = ViewportWindowDetectionCallback
       /\ [entry] = entry' :: rest
       /\ Entry.rootBounds entry' = None
       /\ 0 < Entry.intersectionRatio entry'.
Proof.
  intros entry w.
  assert (Hthrow : throws (notify 1 [entry]) w = true) by (vm_compute; reflexivity).
  exact (two_io_throws_only_on_empty_batch_or_missing_root
           [Observe someTarget; Notify 0%nat [enteredViewport]] 4 1 [entry] Hthrow).
Defined.

End TwoIo.

(** * The documented revision *)

(** X23. In the documented revision the coarse callback passes the target on
    to a fine watcher only at ratio 1.  At any other ratio it reports once,
    with the position read from the page at that moment (not the entry's
    rectangle) and with [outOfViewport] true exactly at ratio 0; it forgets
    the cached sample, cancels the frame request the instance holds, and
    leaves the observers as they are: a partly visible target stays with the
    coarse watcher. *)
Theorem documented_coarse_reports_unless_full (w : World) (entry : Entry.t)
    (rest : list Entry.t) :
  ~ Entry.intersectionRatio entry == 1 ->
  let w2 := exec (Documented.viewportWindowDetectionCallback (entry :: rest)) w in
  throws (Documented.viewportWindowDetectionCallback (entry :: rest)) w = false
  /\ reported w2
     = reported w ++
       [{| PositionData.x := DOMRect.left (layout w (Entry.target entry));
           PositionData.y := DOMRect.top (layout w (Entry.target entry));
           PositionData.target := Entry.target entry;
           PositionData.outOfViewport := Qeq_bool (Entry.intersectionRatio entry) 0;
           PositionData.rootBounds := Entry.rootBounds entry |}]
  /\ previousPositionInfo w2 = None
  /\ observers w2 = observers w
  /\ intersectionObserver w2 = intersectionObserver w
  /\ (forall h, positionRAF w = Some h -> h <> 0%nat ->
        pendingFrame h (frames w2) = None)
  /\ (forall h f, In (h, f) (frames w2) -> In (h, f) (frames w)).
Proof.
  intros Hne w2. subst w2.
  assert (H1 : Qeq_bool (Entry.intersectionRatio entry) 1 = false).
  { destruct (Qeq_bool (Entry.intersectionRatio entry) 1) eqn:E; [|reflexivity].
    apply Qeq_bool_iff in E. contradiction. }
  unfold throws. documented_unfold. rewrite H1.
  (destruct (positionRAF w) as [h|] eqn:Hraf;
   [destruct (Nat.eqb h 0) eqn:Hz|]);
    settle; repeat split; try reflexivity; try discriminate; try (intros; assumption).
  all: try (intros h' [= <-] Hh; apply Nat.eqb_eq in Hz; contradiction).
  - intros h' [= <-] _. apply pendingFrame_cancelled.
  - intros h' f Hin. apply In_cancelled in Hin. exact (proj1 Hin).
Qed.

Lemma documented_coarse_reports_unless_full_witness :
  let w := Documented.run [Observe someTarget]
             (Documented.construct 4 (fun _ => atRest) plainViewport) in
  let entry := Entry.mk someTarget moved (DOMRect.mk 110 100 10 20)
                 (Some wideViewport) (1 # 2) in
  let w2 := exec (Documented.viewportWindowDetectionCallback [entry]) w in
  reported w2
  = [{| PositionData.x := DOMRect.left atRest;
        PositionData.y := DOMRect.top atRest;
        PositionData.target := someTarget;
        PositionData.outOfViewport := false;
        PositionData.rootBounds := Some wideViewport |}]
  /\ observers w2 = observers w.
Proof.
  intros w entry w2.
  assert (Hne : ~ Entry.intersectionRatio entry == 1) by (vm_compute; discriminate).
  destruct (documented_coarse_reports_unless_full w entry [] Hne)
    as (_ & Hrep & _ & Hobs & _).
  split; [exact Hrep|exact Hobs].
Defined.

(** X24. The frame closure of the documented fine watcher.  At ratio 1 it
    reports once and changes nothing else.  At a ratio from 0 up to but not
    including 1 it reports once, leaves the current watcher without a
    target, sets the counter to [Math.ceil(waitTime / 16)] and requests the
    first [stopConfirmationCheck] tick; no observer is created, also at
    ratio 0.  At any other ratio it does nothing.  The reported position is
    read from the page when the frame runs, and [outOfViewport] is always
    false. *)
Theorem documented_fine_frame_cases (w : World) (entry : Entry.t) :
  let ratio := Entry.intersectionRatio entry in
  let w2 := exec (Documented.finerWindowFrame entry) w in
  let report :=
    {| PositionData.x := DOMRect.left (layout w (Entry.target entry));
       PositionData.y := DOMRect.top (layout w (Entry.target entry));
       PositionData.target := Entry.target entry;
       PositionData.outOfViewport := false;
       PositionData.rootBounds := Entry.rootBounds entry |} in
  (ratio == 1 ->
     Documented.finerWindowFrame entry w
     = Returned tt (set_reported (reported w ++ [report]) w))
  /\ (0 <= ratio -> ratio < 1 ->
     throws (Documented.finerWindowFrame entry) w = false
     /\ reported w2 = reported w ++ [report]
     /\ frames w2 = frames w ++ [(nextFrame w, StopConfirmationCheck)]
     /\ positionRAF w2 = Some (nextFrame w)
     /\ timeToWaitTillStopConfirmed w2 = framesToWait (waitTime w)
     /\ previousPositionInfo w2 = previousPositionInfo w
     /\ intersectionObserver w2 = intersectionObserver w
     /\ length (observers w2) = length (observers w)
     /\ (forall io o, intersectionObserver w = Some io -> observers w !! io = Some o ->
           exists o', observers w2 !! io = Some o'
                      /\ IntersectionObserver.targets o' = []))
  /\ (ratio < 0 \/ 1 < ratio -> Documented.finerWindowFrame entry w = Returned tt w).
Proof.
  intros ratio w2 report. subst ratio w2 report.
  split; [|split].
  - intros H1. apply Qeq_bool_iff in H1.
    documented_unfold. rewrite H1. reflexivity.
  - intros H0 Hlt.
    assert (H1 : Qeq_bool (Entry.intersectionRatio entry) 1 = false).
    { destruct (Qeq_bool (Entry.intersectionRatio entry) 1) eqn:E; [|reflexivity].
      apply Qeq_bool_iff in E. rewrite E in Hlt. exfalso. exact (Qlt_irrefl _ Hlt). }
    apply Qle_bool_iff in H0. apply Qltb_lt in Hlt.
    unfold throws. documented_unfold. rewrite H1, H0, Hlt.
    destruct (intersectionObserver w) as [io|] eqn:Hio; settle;
      rewrite ?length_alter; repeat split; try reflexivity; try discriminate.
    intros io' o [= <-] Ho. eexists. split; [apply alter_alter_lookup, Ho|reflexivity].
  - intros Hout.
    assert (H1 : Qeq_bool (Entry.intersectionRatio entry) 1 = false).
    { destruct (Qeq_bool (Entry.intersectionRatio entry) 1) eqn:E; [|reflexivity].
      apply Qeq_bool_iff in E. rewrite E in Hout.
      destruct Hout as [H|H]; [discriminate H|exfalso; exact (Qlt_irrefl _ H)]. }
    assert (H2 : Qle_bool 0 (Entry.intersectionRatio entry)
                 && Qltb (Entry.intersectionRatio entry) 1 = false).
    { destruct Hout as [H|H].
      - destruct (Qle_bool 0 (Entry.intersectionRatio entry)) eqn:E; [|reflexivity].
        apply Qle_bool_iff in E. exfalso. exact (Qlt_not_le _ _ H E).
      - rewrite (proj2 (Qltb_ge _ _) (Qlt_le_weak _ _ H)). apply andb_false_r. }
    documented_unfold. rewrite H1, H2. reflexivity.
Qed.

(** ** The frame loop of the documented revision *)

Lemma pending_below_next (w : World) (h : nat) (f : FrameRequest) :
  freshFrames w -> pendingFrame h (frames w) = Some f -> (h < nextFrame w)%nat.
Proof.
  intros Hfresh Hpend. unfold pendingFrame in Hpend.
  destruct (List.find (fun hf => Nat.eqb h (fst hf)) (frames w)) as [[h0 f0]|] eqn:Hf;
    [|discriminate].
  apply List.find_some in Hf. destruct Hf as [Hin Heq]. cbn in Heq.
  apply Nat.eqb_eq in Heq. subst h0. exact (Hfresh _ _ Hin).
Qed.

Lemma documented_tick_counts_down (w : World) (t : Element) (n : Z) :
  confirmingStill w t n -> n <> 0%Z ->
  confirmingStill (documentedTick w) t (n - 1)
  /\ quietSince w (documentedTick w).
Proof.
  intros (Ht & Hsame & Hn & Hfresh & h & Hraf & Hh & Hpend) Hnz.
  pose proof (pending_below_next w h _ Hfresh Hpend) as Hlt.
  assert (Hz : Nat.eqb h 0 = false) by (apply Nat.eqb_neq, Hh).
  assert (E : List.filter (fun hf : nat * FrameRequest => negb (h =? hf.1)%nat)
                (List.filter (fun hf : nat * FrameRequest => negb (h =? hf.1)%nat) (frames w))
              = List.filter (fun hf : nat * FrameRequest => negb (h =? hf.1)%nat) (frames w))
    by apply cancel_twice.
  unfold documentedTick, confirmingStill, quietSince. rewrite Hraf.
  unfold exec, Documented.frame, bind, gets. rewrite Hpend.
  cbn [Documented.runFrame].
  documented_unfold.
  repeat (progress (cbn; rewrite ?Ht, ?Hsame, ?Hn, ?Hraf, ?Hz, ?E)).
  destruct (Z.eqb_spec n 0) as [E0|_]; [contradiction|]. cbn.
  repeat match goal with |- _ /\ _ => split end; try reflexivity; try assumption.
  - unfold freshFrames. cbn. intros h' f' Hin.
    apply in_app_or in Hin. destruct Hin as [Hin|[[= <- <-]|[]]].
    + apply In_cancelled in Hin. destruct Hin as [Hin _].
      specialize (Hfresh _ _ Hin). lia.
    + lia.
  - exists (nextFrame w). split; [reflexivity|]. split; [lia|].
    apply pendingFrame_fresh.
    intros h' f' Hin. apply In_cancelled in Hin. destruct Hin as [Hin _].
    specialize (Hfresh _ _ Hin). lia.
  - intros h' f' Hin Hne. cbn in Hne.
    apply in_app_or in Hin. destruct Hin as [Hin|[[= <- <-]|[]]].
    + apply In_cancelled in Hin. destruct Hin as [Hin Hh']. split; [exact Hin|].
      congruence.
    + congruence.
Qed.

Lemma documented_tick_ends_loop (w : World) (t : Element) :
  confirmingStill w t 0 ->
  let w' := documentedTick w in
  observers w' = observers w ++ [coarseWatcher w t]
  /\ intersectionObserver w' = Some (length (observers w))
  /\ reported w' = reported w
  /\ previousPositionInfo w' = None
  /\ target w' = Some t
  /\ (forall h f, In (h, f) (frames w') -> In (h, f) (frames w) /\ positionRAF w <> Some h)
  /\ documentedTick w' = w'.
Proof.
  intros (Ht & Hsame & Hn & Hfresh & h & Hraf & Hh & Hpend) w'. subst w'.
  assert (Hz : Nat.eqb h 0 = false) by (apply Nat.eqb_neq, Hh).
  assert (E : List.filter (fun hf : nat * FrameRequest => negb (h =? hf.1)%nat)
                (List.filter (fun hf : nat * FrameRequest => negb (h =? hf.1)%nat) (frames w))
              = List.filter (fun hf : nat * FrameRequest => negb (h =? hf.1)%nat) (frames w))
    by apply cancel_twice.
  unfold documentedTick. rewrite Hraf.
  unfold exec, Documented.frame, bind, gets. rewrite Hpend.
  cbn [Documented.runFrame].
  documented_unfold.
  repeat (progress (cbn; rewrite ?Ht, ?Hsame, ?Hn, ?Hraf, ?Hz, ?E,
                      ?pendingFrame_cancelled, ?alter_new_observer)).
  repeat match goal with |- _ /\ _ => split end; try reflexivity.
  intros h' f' Hin. apply In_cancelled in Hin. destruct Hin as [Hin Hne].
  split; [exact Hin|congruence].
Qed.

Lemma documented_ticks_count_down (t : Element) (k : nat) :
  forall w, confirmingStill w t (Z.of_nat k) ->
  forall j, (j <= k)%nat ->
    confirmingStill (documentedTicks j w) t (Z.of_nat k - Z.of_nat j)
    /\ quietSince w (documentedTicks j w).
Proof.
  induction k as [|k IH]; intros w Hp j Hj.
  - assert (j = 0%nat) as -> by lia. cbn. split; [exact Hp|apply quietSince_refl].
  - destruct j as [|j].
    + cbn [documentedTicks]. rewrite Z.sub_0_r. split; [exact Hp|apply quietSince_refl].
    + destruct (documented_tick_counts_down w t _ Hp ltac:(lia)) as (Hp' & Hq).
      replace (Z.of_nat (S k) - 1)%Z with (Z.of_nat k) in Hp' by lia.
      destruct (IH _ Hp' j ltac:(lia)) as [Hp'' Hq'].
      cbn [documentedTicks]. split.
      * replace (Z.of_nat (S k) - Z.of_nat (S j))%Z with (Z.of_nat k - Z.of_nat j)%Z by lia.
        exact Hp''.
      * exact (quietSince_trans _ _ _ Hq Hq').
Qed.

Lemma documentedTicks_succ (k : nat) (w : World) :
  documentedTicks (S k) w = documentedTick (documentedTicks k w).
Proof.
  revert w. induction k as [|k IH]; intros w; [reflexivity|].
  cbn [documentedTicks] in *. apply IH.
Qed.

(** X25. The frame loop of the documented revision on a resting target: with
    [n] frames left on the counter, the next [n] ticks count it down
    without a report; the tick after them ends the loop, reports nothing,
    forgets the cached sample and calls [observe], which appends a coarse
    watcher and makes it current.  Later ticks do nothing. *)
Theorem documented_loop_converges (w : World) (t : Element) (n : Z) :
  confirmingStill w t n ->
  (0 <= n)%Z ->
  let k := Z.to_nat n in
  let wend := documentedTicks (S k) w in
  (forall j, (j <= k)%nat ->
     confirmingStill (documentedTicks j w) t (n - Z.of_nat j)
     /\ reported (documentedTicks j w) = reported w)
  /\ reported wend = reported w
  /\ previousPositionInfo wend = None
  /\ target wend = Some t
  /\ observers wend = observers w ++ [coarseWatcher w t]
  /\ intersectionObserver wend = Some (length (observers w))
  /\ (forall j, documentedTicks j wend = wend).
Proof.
  intros Hp Hn0 k wend.
  assert (Hk : n = Z.of_nat k) by (subst k; lia).
  rewrite Hk in Hp.
  pose proof (documented_ticks_count_down t k w Hp) as Hdown.
  destruct (Hdown k (Nat.le_refl k)) as [Hlast Hquiet].
  rewrite Z.sub_diag in Hlast.
  destruct Hquiet as (Q1 & Q2 & Q3 & Q4 & Q5 & Q6 & Q7).
  destruct (documented_tick_ends_loop _ _ Hlast) as (E1 & E2 & E3 & E4 & E5 & E6 & E7).
  subst wend. rewrite documentedTicks_succ.
  repeat match goal with |- _ /\ _ => split end.
  - intros j Hj. destruct (Hdown j Hj) as [Hpj (Hr & _)].
    rewrite Hk. split; assumption.
  - congruence.
  - exact E4.
  - exact E5.
  - rewrite E1, Q2. unfold coarseWatcher. rewrite Q4. reflexivity.
  - rewrite E2, Q2. reflexivity.
  - intros j. induction j as [|j IH]; [reflexivity|].
    cbn [documentedTicks]. rewrite E7. exact IH.
Qed.

Lemma documentedLoopWorld_still : confirmingStill documentedLoopWorld someTarget 32.
Proof.
  unfold confirmingStill. repeat split; try (vm_compute; reflexivity).
  - apply freshFramesb_sound. vm_compute. reflexivity.
  - exists 3%nat. repeat split; try (vm_compute; reflexivity). discriminate.
Qed.

Lemma documented_loop_converges_witness :
  let wend := documentedTicks 33 documentedLoopWorld in
  reported wend = reported documentedLoopWorld
  /\ previousPositionInfo wend = None
  /\ observers wend
     = observers documentedLoopWorld ++ [coarseWatcher documentedLoopWorld someTarget].
Proof.
  intros wend.
  assert (Hn : (0 <= 32)%Z) by lia.
  destruct (documented_loop_converges documentedLoopWorld someTarget 32
              documentedLoopWorld_still Hn) as (_ & Hrep & Hs & _ & Hobs & _).
  split; [exact Hrep|]. split; [exact Hs|exact Hobs].
Defined.

(** ** One movement, two reports *)

Ltac fresh_side Hfresh :=
  let h' := fresh "h'" in
  let f' := fresh "f'" in
  let Hin := fresh "Hin" in
  intros h' f' Hin;
  repeat match goal with
         | H : In _ (_ ++ _) |- _ =>
             apply in_app_or in H; destruct H as [H|[H|[]]];
             [|injection H as <- <-; lia]
         | H : In _ (List.filter _ _) |- _ =>
             apply In_cancelled in H; destruct H as [H _]
         end;
  match goal with
  | H : In _ (frames _) |- _ => specialize (Hfresh _ _ H); lia
  end.

Lemma cancel_absent (fs : list (nat * FrameRequest)) (h : nat) :
  (forall h' f', In (h', f') fs -> h' <> h) ->
  List.filter (fun hf => negb (Nat.eqb h (fst hf))) fs = fs.
Proof.
  induction fs as [|[h' f'] fs IH]; intros Hne; [reflexivity|].
  cbn [List.filter fst].
  destruct (Nat.eqb_spec h h') as [E|_].
  - exfalso. exact (Hne h' f' (or_introl eq_refl) (eq_sym E)).
  - cbn [negb]. f_equal. apply IH. intros h'' f'' Hin. apply (Hne h'' f''). right. exact Hin.
Qed.

Lemma documented_frame_pending (w : World) (h : nat) (f : FrameRequest) :
  pendingFrame h (frames w) = Some f ->
  exec (Documented.frame h) w
  = exec (cancelAnimationFrame h ;; Documented.runFrame f) w.
Proof.
  intros H. unfold exec, Documented.frame, bind at 1, gets. rewrite H. reflexivity.
Qed.

(** X26. In the documented revision a notification of the fine watcher with
    a ratio from 0 up to but not including 1 leads to two reports within two
    frames, also when the target does not move in between: the frame closure
    reports, and because the callback has forgotten the cached sample, the
    first tick of the loop finds the position "changed" and reports the
    same position again, this time with the target's own rectangle as
    [rootBounds]. *)
Theorem documented_movement_reported_twice (w : World) (io : nat)
    (o : IntersectionObserver.t) (entry : Entry.t) (rest : list Entry.t)
    (t : Element) :
  freshFrames w ->
  observers w !! io = Some o ->
  IntersectionObserver.callback o = FinerWindowCallback ->
  target w = Some t ->
  0 <= Entry.intersectionRatio entry ->
  Entry.intersectionRatio entry < 1 ->
  let h := nextFrame w in
  let w3 := Documented.run [Notify io (entry :: rest); Frame h; Frame (S h)] w in
  reported w3
  = reported w ++
    [{| PositionData.x := DOMRect.left (layout w (Entry.target entry));
        PositionData.y := DOMRect.top (layout w (Entry.target entry));
        PositionData.target := Entry.target entry;
        PositionData.outOfViewport := false;
        PositionData.rootBounds := Entry.rootBounds entry |};
     {| PositionData.x := DOMRect.left (layout w t);
        PositionData.y := DOMRect.top (layout w t);
        PositionData.target := t;
        PositionData.outOfViewport := false;
        PositionData.rootBounds := Some (layout w t) |}]
  /\ previousPositionInfo w3 = Some (sampleOf (layout w t))
  /\ timeToWaitTillStopConfirmed w3 = framesToWait (stopWaitTime w)
  /\ positionRAF w3 = Some (S (S h))
  /\ pendingFrame (S (S h)) (frames w3) = Some StopConfirmationCheck.
Proof.
  intros Hfresh Hio Hcb Ht H0 Hlt h w3. subst h w3.
  assert (H1 : Qeq_bool (Entry.intersectionRatio entry) 1 = false).
  { destruct (Qeq_bool (Entry.intersectionRatio entry) 1) eqn:E; [|reflexivity].
    apply Qeq_bool_iff in E. rewrite E in Hlt. exfalso. exact (Qlt_irrefl _ Hlt). }
  apply Qle_bool_iff in H0. apply Qltb_lt in Hlt.
  assert (Hnotify : exec (Documented.step (Notify io (entry :: rest))) w
                    = exec (Documented.finerWindowCallback (entry :: rest)) w).
  { unfold exec. cbn [Documented.step].
    unfold Documented.notify, bind at 1, gets at 1. rewrite Hio, Hcb. reflexivity. }
  cbn [Documented.run]. rewrite Hnotify. cbn [Documented.step].
  (* the notification *)
  set (w1 := exec (Documented.finerWindowCallback (entry :: rest)) w).
  assert (Hw1 : exists fs,
             frames w1 = fs ++ [(nextFrame w, FinerWindowFrame entry)]
             /\ (forall h' f', In (h', f') fs -> (h' < nextFrame w)%nat)
             /\ nextFrame w1 = S (nextFrame w)
             /\ previousPositionInfo w1 = None
             /\ target w1 = Some t
             /\ layout w1 = layout w
             /\ reported w1 = reported w
             /\ stopWaitTime w1 = stopWaitTime w).
  { subst w1. documented_unfold.
    (destruct (positionRAF w) as [h0|] eqn:Hraf;
     [destruct (Nat.eqb h0 0) eqn:Hz|]); settle; eexists;
      (split; [reflexivity|]); (split; [fresh_side Hfresh|]);
      repeat split; try reflexivity; exact Ht. }
  clearbody w1.
  destruct Hw1 as (fs & Hfr1 & Hfs & Hnext1 & Hs1 & Ht1 & Hl1 & Hr1 & Hswt1).
  (* the frame closure *)
  assert (Hne1 : forall h' f', In (h', f') fs -> h' <> nextFrame w)
    by (intros h' f' Hin; specialize (Hfs _ _ Hin); lia).
  rewrite (documented_frame_pending w1 (nextFrame w) (FinerWindowFrame entry))
    by (rewrite Hfr1; exact (pendingFrame_fresh fs _ _ Hne1)).
  cbn [Documented.runFrame].
  set (w2 := exec (cancelAnimationFrame (nextFrame w) ;;
                   Documented.finerWindowFrame entry) w1).
  assert (Hw2 : frames w2 = fs ++ [(S (nextFrame w), StopConfirmationCheck)]
                /\ positionRAF w2 = Some (S (nextFrame w))
                /\ nextFrame w2 = S (S (nextFrame w))
                /\ previousPositionInfo w2 = None
                /\ target w2 = Some t
                /\ layout w2 = layout w
                /\ stopWaitTime w2 = stopWaitTime w
                /\ reported w2
                   = reported w ++
                     [{| PositionData.x := DOMRect.left (layout w (Entry.target entry));
                         PositionData.y := DOMRect.top (layout w (Entry.target entry));
                         PositionData.target := Entry.target entry;
                         PositionData.outOfViewport := false;
                         PositionData.rootBounds := Entry.rootBounds entry |}]).
  { subst w2. documented_unfold. rewrite H1, H0, Hlt.
    destruct (intersectionObserver w1) as [cur|] eqn:Hcur;
      repeat (progress (cbn; rewrite ?Hfr1, ?Hnext1, ?Hs1, ?Ht1, ?Hl1, ?Hr1, ?Hswt1,
                          ?Hcur, ?(cancel_fresh fs _ _ Hne1)));
      repeat split; reflexivity. }
  clearbody w2.
  destruct Hw2 as (Hfr2 & Hraf2 & Hnext2 & Hs2 & Ht2 & Hl2 & Hswt2 & Hr2).
  (* the first tick of the loop *)
  assert (Hz2 : Nat.eqb (S (nextFrame w)) 0 = false) by reflexivity.
  remember (S (nextFrame w)) as h2 eqn:Eh2.
  assert (Hne2 : forall h' f', In (h', f') fs -> h' <> h2)
    by (intros h' f' Hin; specialize (Hfs _ _ Hin); lia).
  rewrite (documented_frame_pending w2 h2 StopConfirmationCheck)
    by (rewrite Hfr2; exact (pendingFrame_fresh fs _ _ Hne2)).
  cbn [Documented.runFrame].
  pose proof (cancel_absent fs h2 Hne2) as Hkeep.
  assert (Hch : positionChanged None (layout w t) = true) by reflexivity.
  set (w3 := exec (cancelAnimationFrame h2 ;;
                   Documented.stopConfirmationCheck) w2).
  assert (Hw3 : reported w3
                = reported w2 ++
                  [{| PositionData.x := DOMRect.left (layout w t);
                      PositionData.y := DOMRect.top (layout w t);
                      PositionData.target := t;
                      PositionData.outOfViewport := false;
                      PositionData.rootBounds := Some (layout w t) |}]
                /\ previousPositionInfo w3 = Some (sampleOf (layout w t))
                /\ timeToWaitTillStopConfirmed w3 = framesToWait (stopWaitTime w)
                /\ positionRAF w3 = Some (S h2)
                /\ frames w3 = fs ++ [(S h2, StopConfirmationCheck)]).
  { subst w3. documented_unfold.
    repeat (progress (cbn; rewrite ?Hfr2, ?Hraf2, ?Hnext2, ?Hs2, ?Ht2, ?Hl2, ?Hswt2,
                        ?(cancel_fresh fs _ _ Hne2), ?Hkeep, ?Hch, ?Hz2)).
    repeat split; reflexivity. }
  clearbody w3.
  destruct Hw3 as (Hr3 & Hs3 & Hn3 & Hraf3 & Hfr3).
  rewrite Hr3, Hr2, <- app_assoc, Hfr3.
  repeat split; try assumption; try reflexivity.
  apply pendingFrame_fresh.
  intros h' f' Hin. specialize (Hfs _ _ Hin). lia.
Qed.

Lemma documented_movement_reported_twice_witness :
  let w3 := Documented.run
              [Notify 1%nat [startedMoving]; Frame 1%nat; Frame 2%nat]
              (exec (moveTo someTarget moved) documentedFineWorld) in
  reported w3
  = [{| PositionData.x := DOMRect.left moved;
        PositionData.y := DOMRect.top moved;
        PositionData.target := someTarget;
        PositionData.outOfViewport := false;
        PositionData.rootBounds := Some fittedRoot |};
     {| PositionData.x := DOMRect.left moved;
        PositionData.y := DOMRect.top moved;
        PositionData.target := someTarget;
        PositionData.outOfViewport := false;
        PositionData.rootBounds := Some moved |}].
Proof.
  intros w3.
  set (w := exec (moveTo someTarget moved) documentedFineWorld).
  assert (Hfresh : freshFrames w) by (apply freshFramesb_sound; vm_compute; reflexivity).
  assert (Hio : observers w !! 1%nat = Some fineWatcher) by (vm_compute; reflexivity).
  assert (Hcb : IntersectionObserver.callback fineWatcher = FinerWindowCallback)
    by reflexivity.
  assert (Ht : target w = Some someTarget) by (vm_compute; reflexivity).
  assert (H0 : 0 <= Entry.intersectionRatio startedMoving) by (vm_compute; discriminate).
  assert (Hlt : Entry.intersectionRatio startedMoving < 1) by (vm_compute; reflexivity).
  exact (proj1 (documented_movement_reported_twice w 1 fineWatcher startedMoving []
                  someTarget Hfresh Hio Hcb Ht H0 Hlt)).
Defined.
